(** * hikari: the error hierarchy ([hikari/errors.py]), the interrupt
    handling context manager ([hikari/internal/signals.py]) and the
    inventory hook of the documentation script ([docs/patched_pdoc.py]).

    Python objects are modelled by their class and their instance
    dictionary, calls by their positional and keyword arguments, and
    raised exceptions by an error result that carries the exception
    object. *)

From Stdlib Require Import ZArith List String Ascii Floats DecimalString Lia
  Sorted.
From stdpp Require Import base gmap strings list fin_maps.
Import ListNotations.

Local Open Scope Z_scope.
Set Warnings "-register-all".

(** ** Python values *)

(** A Python [str] is a sequence of Unicode code points; [len] and slicing
    count code points. *)
Definition pystr : Type := list N.

(** A string literal of the source. *)
Definition lit (s : string) : pystr :=
  map N_of_ascii (list_ascii_of_string s).

(** Members of [http.HTTPStatus]: an int-valued enum member with a name. *)
Record HTTPStatus : Type := mkStatus { status_name : string; status_value : Z }.

Definition BAD_REQUEST : HTTPStatus := mkStatus "BAD_REQUEST" 400.
Definition UNAUTHORIZED : HTTPStatus := mkStatus "UNAUTHORIZED" 401.
Definition FORBIDDEN : HTTPStatus := mkStatus "FORBIDDEN" 403.
Definition NOT_FOUND : HTTPStatus := mkStatus "NOT_FOUND" 404.

(** [ShardCloseCode(int, enums.Enum)]. *)
Inductive ShardCloseCode : Type :=
| NORMAL_CLOSURE | GOING_AWAY | PROTOCOL_ERROR | TYPE_ERROR | ENCODING_ERROR
| POLICY_VIOLATION | TOO_BIG | UNEXPECTED_CONDITION
| UNKNOWN_ERROR | UNKNOWN_OPCODE | DECODE_ERROR | NOT_AUTHENTICATED
| AUTHENTICATION_FAILED | ALREADY_AUTHENTICATED | INVALID_SEQ | RATE_LIMITED
| SESSION_TIMEOUT | INVALID_SHARD | SHARDING_REQUIRED | INVALID_VERSION
| INVALID_INTENT | DISALLOWED_INTENT.

Definition value (c : ShardCloseCode) : Z :=
  match c with
  | NORMAL_CLOSURE => 1000
  | GOING_AWAY => 1001
  | PROTOCOL_ERROR => 1002
  | TYPE_ERROR => 1003
  | ENCODING_ERROR => 1007
  | POLICY_VIOLATION => 1008
  | TOO_BIG => 1009
  | UNEXPECTED_CONDITION => 1011
  | UNKNOWN_ERROR => 4000
  | UNKNOWN_OPCODE => 4001
  | DECODE_ERROR => 4002
  | NOT_AUTHENTICATED => 4003
  | AUTHENTICATION_FAILED => 4004
  | ALREADY_AUTHENTICATED => 4005
  | INVALID_SEQ => 4007
  | RATE_LIMITED => 4008
  | SESSION_TIMEOUT => 4009
  | INVALID_SHARD => 4010
  | SHARDING_REQUIRED => 4011
  | INVALID_VERSION => 4012
  | INVALID_INTENT => 4013
  | DISALLOWED_INTENT => 4014
  end.

(** The name of a member. *)
Definition name (c : ShardCloseCode) : string :=
  match c with
  | NORMAL_CLOSURE => "NORMAL_CLOSURE"
  | GOING_AWAY => "GOING_AWAY"
  | PROTOCOL_ERROR => "PROTOCOL_ERROR"
  | TYPE_ERROR => "TYPE_ERROR"
  | ENCODING_ERROR => "ENCODING_ERROR"
  | POLICY_VIOLATION => "POLICY_VIOLATION"
  | TOO_BIG => "TOO_BIG"
  | UNEXPECTED_CONDITION => "UNEXPECTED_CONDITION"
  | UNKNOWN_ERROR => "UNKNOWN_ERROR"
  | UNKNOWN_OPCODE => "UNKNOWN_OPCODE"
  | DECODE_ERROR => "DECODE_ERROR"
  | NOT_AUTHENTICATED => "NOT_AUTHENTICATED"
  | AUTHENTICATION_FAILED => "AUTHENTICATION_FAILED"
  | ALREADY_AUTHENTICATED => "ALREADY_AUTHENTICATED"
  | INVALID_SEQ => "INVALID_SEQ"
  | RATE_LIMITED => "RATE_LIMITED"
  | SESSION_TIMEOUT => "SESSION_TIMEOUT"
  | INVALID_SHARD => "INVALID_SHARD"
  | SHARDING_REQUIRED => "SHARDING_REQUIRED"
  | INVALID_VERSION => "INVALID_VERSION"
  | INVALID_INTENT => "INVALID_INTENT"
  | DISALLOWED_INTENT => "DISALLOWED_INTENT"
  end.

(** The members in definition order. *)
Definition ShardCloseCode_members : list ShardCloseCode :=
  [ NORMAL_CLOSURE; GOING_AWAY; PROTOCOL_ERROR; TYPE_ERROR; ENCODING_ERROR;
    POLICY_VIOLATION; TOO_BIG; UNEXPECTED_CONDITION;
    UNKNOWN_ERROR; UNKNOWN_OPCODE; DECODE_ERROR; NOT_AUTHENTICATED;
    AUTHENTICATION_FAILED; ALREADY_AUTHENTICATED; INVALID_SEQ; RATE_LIMITED;
    SESSION_TIMEOUT; INVALID_SHARD; SHARDING_REQUIRED; INVALID_VERSION;
    INVALID_INTENT; DISALLOWED_INTENT ].

(** [ShardCloseCode.is_standard]: [(self.value // 1000) == 1]; Python's
    [//] is floor division, as is [Z.div] for a positive divisor. *)
Definition is_standard (c : ShardCloseCode) : bool :=
  (value c / 1000) =? 1.

(** JSON data ([data_binding.JSONObject], [data_binding.Headers]); a dict
    keeps insertion order. *)
Inductive json : Type :=
| JNull
| JBool (b : bool)
| JNum (z : Z)
| JStr (s : pystr)
| JArr (items : list json)
| JObj (fields : list (pystr * json)).

(** An instance of a class that is defined outside these modules
    ([routes.CompiledRoute], [intents.Intents], ...): known by its class
    name, an identity, and what [str], [bool], [len] and slicing make of
    it. *)
Record ext : Type := mkExt {
  ext_class : string;
  ext_id : N;
  ext_str : pystr;     (* str(x) *)
  ext_truthy : bool;   (* bool(x) *)
  ext_quoted : option (nat * pystr)
    (* len(x) and str(x[:200]); None when len(x) or x[:200] raises
       TypeError *)
}.

Inductive pyval : Type :=
| VNone
| VBool (b : bool)
| VInt (z : Z)
| VFloat (f : float)
| VStr (s : pystr)
| VBytes (bs : list N)
| VStatus (s : HTTPStatus)
| VCloseCode (c : ShardCloseCode)
| VJson (j : json)
| VExt (e : ext).

(** ** Classes and objects *)

Inductive class : Type :=
(* builtins *)
| BaseException | Exception | KeyboardInterrupt | RuntimeError | ValueError
| TypeError | AttributeError | AssertionError | Warning | RuntimeWarning
(* hikari.errors *)
| HikariError | HikariWarning | HikariInterrupt | ComponentStateConflictError
| UnrecognisedEntityError | GatewayError | GatewayConnectionError
| GatewayServerClosedConnectionError | HTTPError | HTTPResponseError
| ClientHTTPResponseError | BadRequestError | UnauthorizedError
| ForbiddenError | NotFoundError | RateLimitTooLongError
| InternalServerError | MissingIntentWarning | BulkDeleteError | VoiceError
| MissingIntentError.

#[global] Instance class_eq_dec : EqDecision class.
Proof. solve_decision. Defined.

(** The base classes as written in each [class] statement. *)
Definition bases (c : class) : list class :=
  match c with
  | BaseException => []
  | Exception => [BaseException]
  | KeyboardInterrupt => [BaseException]
  | RuntimeError | ValueError | TypeError | AttributeError
  | AssertionError | Warning => [Exception]
  | RuntimeWarning => [Warning]
  | HikariError => [RuntimeError]
  | HikariWarning => [RuntimeWarning]
  | HikariInterrupt => [KeyboardInterrupt; HikariError]
  | ComponentStateConflictError => [HikariError]
  | UnrecognisedEntityError => [HikariError]
  | GatewayError => [HikariError]
  | GatewayConnectionError => [GatewayError]
  | GatewayServerClosedConnectionError => [GatewayError]
  | HTTPError => [HikariError]
  | HTTPResponseError => [HTTPError]
  | ClientHTTPResponseError => [HTTPResponseError]
  | BadRequestError | UnauthorizedError | ForbiddenError
  | NotFoundError => [ClientHTTPResponseError]
  | RateLimitTooLongError => [HTTPError]
  | InternalServerError => [HTTPResponseError]
  | MissingIntentWarning => [HikariWarning]
  | BulkDeleteError => [HikariError]
  | VoiceError => [HikariError]
  | MissingIntentError => [HikariError; ValueError]
  end.

(** [issubclass c d], following [bases] to the given depth. *)
Fixpoint issubclass_depth (n : nat) (c d : class) : bool :=
  bool_decide (c = d) ||
  match n with
  | O => false
  | S n' => existsb (fun b => issubclass_depth n' b d) (bases c)
  end.

(** No chain of base classes is longer than eight. *)
Definition issubclass (c d : class) : bool := issubclass_depth 8 c d.

(** An instance: its class and its [__dict__]. *)
Record obj : Type := mkObj { cls : class; dict : gmap string pyval }.

Definition isinstance (o : obj) (c : class) : bool := issubclass (cls o) c.

(** ** Results: a value, or a raised exception *)

Inductive result (A : Type) : Type :=
| Ok (a : A)
| Raise (e : obj).
Arguments Ok {A} a.
Arguments Raise {A} e.

(** Sequencing: an exception raised by the first statement skips the
    rest. *)
#[global] Instance result_bind : MBind result := fun A B k r =>
  match r with
  | Ok a => k a
  | Raise e => Raise e
  end.

(** Raising a builtin exception (message not modelled). *)
Definition raise {A} (c : class) : result A := Raise (mkObj c ∅).

(** [self.name = v] for a name that the instance keeps in its
    dictionary, as it does every name but those of [data_descriptor]; the
    methods below assign no other. *)
Definition setattr (o : obj) (name : string) (v : pyval) : obj :=
  mkObj (cls o) (<[name := v]> (dict o)).

(** The names that an instance of [c] does not keep in its dictionary:
    [__class__], [__dict__] and [__weakref__], the attributes that
    [BaseException] holds itself, and the read-only property [remaining]
    of [RateLimitTooLongError]. Assigning one of them changes the class of
    the instance, replaces its dictionary, or raises. *)
Definition data_descriptor (c : class) (name : string) : bool :=
  existsb (String.eqb name)
    ["__class__"; "__dict__"; "__weakref__"; "args"; "__traceback__";
     "__cause__"; "__context__"; "__suppress_context__"]%string
  || (issubclass c RateLimitTooLongError && String.eqb name "remaining").

(** [self.name]: none of the classes defines a class attribute (the
    class-level annotations create none), so the lookup succeeds exactly
    on the names in the instance dictionary. *)
Definition getattr (o : obj) (name : string) : result pyval :=
  match dict o !! name with
  | Some v => Ok v
  | None => raise AttributeError
  end.

(** ** Calls *)

(** A keyword-only parameter, with its default if it has one. *)
Definition param : Type := string * option pyval.

Definition has_param (ps : list param) (k : string) : bool :=
  existsb (fun p => bool_decide (fst p = k)) ps.

(** The default of the first parameter called [k], if there is one. *)
Fixpoint find_param (ps : list param) (k : string) : option (option pyval) :=
  match ps with
  | [] => None
  | (name, d) :: ps' => if bool_decide (name = k) then Some d else find_param ps' k
  end.

Fixpoint bind_params (ps : list param) (kwargs : gmap string pyval)
  : result (gmap string pyval) :=
  match ps with
  | [] => Ok ∅
  | (name, default) :: ps' =>
      rest ← bind_params ps' kwargs;
      match kwargs !! name, default with
      | Some v, _ => Ok (<[name := v]> rest)
      | None, Some d => Ok (<[name := d]> rest)
      | None, None => raise TypeError
      end
  end.

(** Binding the arguments of a call to [def f(self, *, p1, p2, ...)]: any
    positional argument, any unknown keyword and any missing parameter
    without default is a [TypeError]. *)
Definition bind_kwonly (ps : list param) (args : list pyval)
    (kwargs : gmap string pyval) : result (gmap string pyval) :=
  match args with
  | _ :: _ => raise TypeError
  | [] =>
      if forallb (has_param ps) (map fst (map_to_list kwargs))
      then bind_params ps kwargs
      else raise TypeError
  end.

(** A bound parameter. *)
Definition arg (b : gmap string pyval) (name : string) : pyval :=
  default VNone (b !! name).

(** ** Builtins used by the methods *)

(** Renderings that the Python runtime or modules outside the source
    decide: [str] of a float, of bytes, of enum members and of dicts, and
    [bytes.decode("utf-8")] ([None] when it raises [UnicodeDecodeError]). *)
Record runtime : Type := mkRuntime {
  str_float : float -> pystr;
  str_bytes : list N -> pystr;
  str_status : HTTPStatus -> pystr;
  str_close_code : ShardCloseCode -> pystr;
  str_json : json -> pystr;
  decode_utf8 : list N -> option pystr
}.

(** [str(n)] for an int. *)
Definition str_int (z : Z) : pystr := lit (NilZero.string_of_int (Z.to_int z)).

(** [str(b)] for a bool. *)
Definition str_bool (b : bool) : pystr := if b then lit "True" else lit "False".

(** [str(v)], which is also what an f-string field [{v}] renders. *)
Definition py_str (rt : runtime) (v : pyval) : pystr :=
  match v with
  | VNone => lit "None"
  | VBool b => str_bool b
  | VInt z => str_int z
  | VFloat f => str_float rt f
  | VStr s => s
  | VBytes bs => str_bytes rt bs
  | VStatus s => str_status rt s
  | VCloseCode c => str_close_code rt c
  | VJson j => str_json rt j
  | VExt e => ext_str e
  end.

(** Truth value of a value in an [if]. *)
Definition truthy (v : pyval) : bool :=
  match v with
  | VNone => false
  | VBool b => b
  | VInt z => negb (z =? 0)
  | VFloat f => negb (PrimFloat.eqb f 0%float)
  | VStr s => negb (bool_decide (s = []))
  | VBytes bs => negb (bool_decide (bs = []))
  | VStatus s => negb (status_value s =? 0)
  | VCloseCode c => negb (value c =? 0)
  | VJson JNull => false
  | VJson (JBool b) => b
  | VJson (JNum z) => negb (z =? 0)
  | VJson (JStr s) => negb (bool_decide (s = []))
  | VJson (JArr l) => match l with [] => false | _ => true end
  | VJson (JObj l) => match l with [] => false | _ => true end
  | VExt e => ext_truthy e
  end.

Definition is_lower (c : N) : bool := ((97 <=? c) && (c <=? 122))%N.
Definition is_upper (c : N) : bool := ((65 <=? c) && (c <=? 90))%N.

(** [s.replace("_", " ")]. *)
Definition replace_underscores (s : pystr) : pystr :=
  map (fun c => if (c =? 95)%N then 32%N else c) s.

(** [s.title()] on ASCII text (the names of [http.HTTPStatus] members):
    a letter that follows a letter is lowercased, any other letter is
    uppercased. *)
Fixpoint title_from (prev_cased : bool) (s : pystr) : pystr :=
  match s with
  | [] => []
  | c :: s' =>
      if is_lower c then
        (if prev_cased then c else (c - 32)%N) :: title_from true s'
      else if is_upper c then
        (if prev_cased then (c + 32)%N else c) :: title_from true s'
      else c :: title_from false s'
  end.

Definition title (s : pystr) : pystr := title_from false s.

(** [body[:200]]. *)
Definition slice_to (n : nat) (s : pystr) : pystr := firstn n s.

(** ** hikari.errors *)

(** [BaseException.__init__(self, *args)]: takes no keyword arguments; the
    positional ones go to [self.args], which is not in [__dict__]. *)
Definition BaseException__init__ (self : obj) (args : list pyval)
    (kwargs : gmap string pyval) : result obj :=
  if bool_decide (kwargs = ∅) then Ok self else raise TypeError.

(** [HikariInterrupt.__init__(self, *, signum, signame)]. *)
Definition HikariInterrupt__init__ (self : obj) (args : list pyval)
    (kwargs : gmap string pyval) : result obj :=
  b ← bind_kwonly [("signum", None); ("signame", None)]%string args kwargs;
  self ← BaseException__init__ self [] ∅;
  let self := setattr self "signum" (arg b "signum") in
  let self := setattr self "signame" (arg b "signame") in
  Ok self.

(** [ComponentStateConflictError], [UnrecognisedEntityError] and
    [GatewayError] share [__init__(self, *, reason)]. *)
Definition reason__init__ (self : obj) (args : list pyval)
    (kwargs : gmap string pyval) : result obj :=
  b ← bind_kwonly [("reason", None)]%string args kwargs;
  self ← BaseException__init__ self [] ∅;
  Ok (setattr self "reason" (arg b "reason")).

Definition GatewayError__init__ := reason__init__.

(** [GatewayServerClosedConnectionError.__init__(self, *, reason, code,
    can_reconnect)]. *)
Definition GatewayServerClosedConnectionError__init__ (self : obj)
    (args : list pyval) (kwargs : gmap string pyval) : result obj :=
  b ← bind_kwonly [("reason", None); ("code", None); ("can_reconnect", None)]%string
         args kwargs;
  self ← GatewayError__init__ self [] {[ "reason"%string := arg b "reason" ]};
  let self := setattr self "code" (arg b "code") in
  let self := setattr self "can_reconnect" (arg b "can_reconnect") in
  Ok self.

(** [HTTPError.__init__(self, *, message)]. *)
Definition HTTPError__init__ (self : obj) (args : list pyval)
    (kwargs : gmap string pyval) : result obj :=
  b ← bind_kwonly [("message", None)]%string args kwargs;
  self ← BaseException__init__ self [] ∅;
  Ok (setattr self "message" (arg b "message")).

(** [HTTPResponseError.__init__(self, *, url, status, headers, raw_body,
    code=0, message="")]. *)
Definition HTTPResponseError__init__ (self : obj) (args : list pyval)
    (kwargs : gmap string pyval) : result obj :=
  b ← bind_kwonly [("url", None); ("status", None); ("headers", None);
                    ("raw_body", None); ("code", Some (VInt 0));
                    ("message", Some (VStr []))]%string args kwargs;
  self ← HTTPError__init__ self [] {[ "message"%string := arg b "message" ]};
  let self := setattr self "url" (arg b "url") in
  let self := setattr self "status" (arg b "status") in
  let self := setattr self "headers" (arg b "headers") in
  let self := setattr self "raw_body" (arg b "raw_body") in
  let self := setattr self "message" (arg b "message") in
  let self := setattr self "code" (arg b "code") in
  Ok self.

(** The keyword arguments that the four status-specific subclasses hand
    to [HTTPResponseError.__init__]. *)
Definition with_status (st : HTTPStatus) (b : gmap string pyval)
  : gmap string pyval :=
  <["url"%string := arg b "url"]>
  (<["headers"%string := arg b "headers"]>
  (<["raw_body"%string := arg b "raw_body"]>
  (<["status"%string := VStatus st]>
  (<["code"%string := arg b "code"]>
  (<["message"%string := arg b "message"]> ∅))))).

(** [BadRequestError.__init__(self, *, url, headers, raw_body, code=0,
    message="", errors=None)]. *)
Definition BadRequestError__init__ (self : obj) (args : list pyval)
    (kwargs : gmap string pyval) : result obj :=
  b ← bind_kwonly [("url", None); ("headers", None); ("raw_body", None);
                    ("code", Some (VInt 0)); ("message", Some (VStr []));
                    ("errors", Some VNone)]%string args kwargs;
  self ← HTTPResponseError__init__ self [] (with_status BAD_REQUEST b);
  let self := setattr self "errors" (arg b "errors") in
  let self := setattr self "_cached_str" VNone in
  Ok self.

(** [UnauthorizedError], [ForbiddenError] and [NotFoundError] have the
    same parameters, [__init__(self, *, url, headers, raw_body, code=0,
    message="")], and differ in the status they pass on. *)
Definition status_error__init__ (st : HTTPStatus) (self : obj)
    (args : list pyval) (kwargs : gmap string pyval) : result obj :=
  b ← bind_kwonly [("url", None); ("headers", None); ("raw_body", None);
                    ("code", Some (VInt 0)); ("message", Some (VStr []))]%string
         args kwargs;
  HTTPResponseError__init__ self [] (with_status st b).

Definition UnauthorizedError__init__ := status_error__init__ UNAUTHORIZED.
Definition ForbiddenError__init__ := status_error__init__ FORBIDDEN.
Definition NotFoundError__init__ := status_error__init__ NOT_FOUND.

(** [sep.join(parts)]. *)
Fixpoint join (sep : pystr) (parts : list pystr) : pystr :=
  match parts with
  | [] => []
  | [p] => p
  | p :: rest => p ++ sep ++ join sep rest
  end.

(** The message built by [RateLimitTooLongError.__init__]. *)
Definition rate_limit_message (rt : runtime) (max_retry_after route is_global : pyval)
  : pystr :=
  lit "The request has been rejected, as you would be waiting for more than "
  ++ lit "the max retry-after (" ++ py_str rt max_retry_after
  ++ lit ") on route '" ++ py_str rt route ++ lit "' "
  ++ lit "[is_global=" ++ py_str rt is_global ++ lit "]".

(** [RateLimitTooLongError.__init__(self, *, route, is_global, retry_after,
    max_retry_after, reset_at, limit, period)]. *)
Definition RateLimitTooLongError__init__ (rt : runtime) (self : obj)
    (args : list pyval) (kwargs : gmap string pyval) : result obj :=
  b ← bind_kwonly [("route", None); ("is_global", None); ("retry_after", None);
                    ("max_retry_after", None); ("reset_at", None);
                    ("limit", None); ("period", None)]%string args kwargs;
  self ← HTTPError__init__ self []
           {[ "message"%string :=
                VStr (rate_limit_message rt (arg b "max_retry_after")
                        (arg b "route") (arg b "is_global")) ]};
  let self := setattr self "route" (arg b "route") in
  let self := setattr self "is_global" (arg b "is_global") in
  let self := setattr self "retry_after" (arg b "retry_after") in
  let self := setattr self "max_retry_after" (arg b "max_retry_after") in
  let self := setattr self "reset_at" (arg b "reset_at") in
  let self := setattr self "limit" (arg b "limit") in
  let self := setattr self "period" (arg b "period") in
  Ok self.

(** The [remaining] property of [RateLimitTooLongError]. *)
Definition remaining (self : obj) : result pyval := Ok (VInt 0).

(** [BulkDeleteError.__init__(self, *, deleted_messages)]. *)
Definition BulkDeleteError__init__ (self : obj) (args : list pyval)
    (kwargs : gmap string pyval) : result obj :=
  b ← bind_kwonly [("deleted_messages", None)]%string args kwargs;
  self ← BaseException__init__ self [] ∅;
  Ok (setattr self "deleted_messages" (arg b "deleted_messages")).

(** [MissingIntentError.__init__(self, *, intents)]; the assignment is to
    [self.deleted_messages]. *)
Definition MissingIntentError__init__ (self : obj) (args : list pyval)
    (kwargs : gmap string pyval) : result obj :=
  b ← bind_kwonly [("intents", None)]%string args kwargs;
  self ← BaseException__init__ self [] ∅;
  Ok (setattr self "deleted_messages" (arg b "intents")).

(** Calling a class with positional and keyword arguments: a fresh
    instance initialised by the [__init__] that the class defines or
    inherits. *)
Definition new (rt : runtime) (c : class) (args : list pyval)
    (kwargs : gmap string pyval) : result obj :=
  let self := mkObj c ∅ in
  match c with
  | HikariInterrupt => HikariInterrupt__init__ self args kwargs
  | ComponentStateConflictError | UnrecognisedEntityError
  | GatewayError | GatewayConnectionError => reason__init__ self args kwargs
  | GatewayServerClosedConnectionError =>
      GatewayServerClosedConnectionError__init__ self args kwargs
  | HTTPError => HTTPError__init__ self args kwargs
  | HTTPResponseError | ClientHTTPResponseError | InternalServerError =>
      HTTPResponseError__init__ self args kwargs
  | BadRequestError => BadRequestError__init__ self args kwargs
  | UnauthorizedError => UnauthorizedError__init__ self args kwargs
  | ForbiddenError => ForbiddenError__init__ self args kwargs
  | NotFoundError => NotFoundError__init__ self args kwargs
  | RateLimitTooLongError => RateLimitTooLongError__init__ rt self args kwargs
  | BulkDeleteError => BulkDeleteError__init__ self args kwargs
  | MissingIntentError => MissingIntentError__init__ self args kwargs
  | _ => BaseException__init__ self args kwargs
  end.

(** *** [__str__] methods *)

(** [HikariInterrupt.__str__]. *)
Definition HikariInterrupt__str__ (rt : runtime) (self : obj) : result pystr :=
  signum ← getattr self "signum";
  signame ← getattr self "signame";
  Ok (lit "Signal " ++ py_str rt signum ++ lit " (" ++ py_str rt signame
      ++ lit ") received").

(** [GatewayServerClosedConnectionError.__str__]. *)
Definition GatewayServerClosedConnectionError__str__ (rt : runtime) (self : obj)
  : result pystr :=
  code ← getattr self "code";
  reason ← getattr self "reason";
  Ok (lit "Server closed connection with code " ++ py_str rt code
      ++ lit " (" ++ py_str rt reason ++ lit ")").

(** The body that [HTTPResponseError.__str__] renders when there is no
    message: [raw_body.decode("utf-8")], and [str(raw_body)] when that
    raises (only bytes have a [decode]; the others raise
    [AttributeError]). *)
Definition render_body (rt : runtime) (raw_body : pyval) : pystr :=
  match raw_body with
  | VBytes bs =>
      match decode_utf8 rt bs with
      | Some s => s
      | None => py_str rt raw_body
      end
  | _ => py_str rt raw_body
  end.

(** [len(body)] and what [{body[:200]}] renders, for a body that is the
    message. A [str], [bytes] or list has a length and a slice of its own
    kind. A number, [None] or an enum member has no [len], and a dict
    cannot be indexed by a slice (a slice is unhashable in the Python
    versions that the project supports, below 3.12): both are a
    [TypeError]. *)
Definition quoted (rt : runtime) (body : pyval) : result (nat * pystr) :=
  match body with
  | VStr s => Ok (length s, slice_to 200 s)
  | VJson (JStr s) => Ok (length s, slice_to 200 s)
  | VBytes bs => Ok (length bs, str_bytes rt (firstn 200 bs))
  | VJson (JArr items) =>
      Ok (length items, str_json rt (JArr (firstn 200 items)))
  | VExt e =>
      match ext_quoted e with
      | Some q => Ok q
      | None => raise TypeError
      end
  | _ => raise TypeError
  end.

(** [HTTPResponseError.__str__]. Without a message the body is a [str]:
    the decoded [raw_body], or [str(raw_body)]. *)
Definition HTTPResponseError__str__ (rt : runtime) (self : obj) : result pystr :=
  status ← getattr self "status";
  let name_value :=
    match status with
    | VStatus s =>
        let name := title (replace_underscores (lit (status_name s))) in
        name ++ lit " " ++ str_int (status_value s)
    | _ => lit "Unknown Status " ++ py_str rt status
    end in
  code ← getattr self "code";
  let code_str :=
    if truthy code then lit " (" ++ py_str rt code ++ lit ")" else lit "" in
  message ← getattr self "message";
  body ← (if truthy message then quoted rt message
          else
            raw_body ← getattr self "raw_body";
            Ok (length (render_body rt raw_body),
                slice_to 200 (render_body rt raw_body)));
  let chomped := (200 <? fst body)%nat in
  url ← getattr self "url";
  Ok (name_value ++ lit ":" ++ code_str ++ lit " '" ++ snd body
      ++ (if chomped then lit "..." else lit "") ++ lit "' for "
      ++ py_str rt url).

(** [RateLimitTooLongError.__str__]: returns [self.message], which must
    be a [str]. *)
Definition RateLimitTooLongError__str__ (self : obj) : result pystr :=
  message ← getattr self "message";
  match message with
  | VStr s => Ok s
  | _ => raise TypeError
  end.

(** [x.split()] and [map(str, ...)] for the value held in [intents];
    [intents.Intents] is outside these modules, so the pieces and their
    names are given. *)
Record intents_api : Type := mkIntentsApi {
  split : pyval -> result (list pyval)
}.

(** [MissingIntentError.__str__]. *)
Definition MissingIntentError__str__ (rt : runtime) (api : intents_api)
    (self : obj) : result pystr :=
  intents ← getattr self "intents";
  parts ← split api intents;
  Ok (lit "You are missing the following intent(s): "
      ++ join (lit ", ") (map (py_str rt) parts)).

(** ** hikari.internal.signals *)

(** What the platform and the interpreter provide: [getattr(signal, name)]
    ([None] when it raises [AttributeError]), [signal.strsignal], and
    whether the calling thread is the main thread. *)
Record platform : Type := mkPlatform {
  signal_number : string -> option Z;
  strsignal : Z -> option pystr;
  in_main_thread : bool
}.

Definition _INTERRUPT_SIGNALS : list string := ["SIGINT"; "SIGTERM"]%string.

(** What [signal.signal] has installed for a signal number. *)
Inductive disposition : Type :=
| SIG_DFL
| Handler.   (* the [interrupt_handler] closure of this use *)

(** What happens to the exit callback. *)
Inductive event : Type :=
| Invoked        (* [exit_callback()] is called *)
| Scheduled      (* [asyncio.run_coroutine_threadsafe] queued the coroutine *)
| Completed.     (* [loop.run_until_complete] returned *)

#[global] Instance event_eq_dec : EqDecision event.
Proof. solve_decision. Defined.

(** The signal table together with the variables that the generator and
    its nested handler share ([nonlocal interrupt, exit_callback_called]),
    and the log of callback events. *)
Record state : Type := mkState {
  handlers : gmap Z disposition;
  interrupt : option obj;
  exit_callback_called : bool;
  events : list event
}.

Definition initial : state := mkState ∅ None false [].

Definition set_handler (n : Z) (d : disposition) (st : state) : state :=
  mkState (<[n := d]> (handlers st)) (interrupt st) (exit_callback_called st)
          (events st).

Definition set_interrupt (i : obj) (st : state) : state :=
  mkState (handlers st) (Some i) (exit_callback_called st) (events st).

Definition set_called (st : state) : state :=
  mkState (handlers st) (interrupt st) true (events st).

Definition log (ev : event) (st : state) : state :=
  mkState (handlers st) (interrupt st) (exit_callback_called st)
          (events st ++ [ev]).

(** [interrupt_handler(signum, frame)]. The trace logging does not touch
    the state. *)
Definition interrupt_handler (pf : platform) (rt : runtime) (signum : Z)
    (st : state) : result () * state :=
  match strsignal pf signum with
  | None => (raise AssertionError, st)
  | Some signame =>
      match new rt HikariInterrupt [VInt signum; VStr signame] ∅ with
      | Raise e => (Raise e, st)
      | Ok i =>
          let st := set_interrupt i st in
          if negb (exit_callback_called st)
          then (Ok (), set_called (log Scheduled (log Invoked st)))
          else (Ok (), st)
      end
  end.

(** Code that runs on the main thread while the context manager is
    active, seen from the signal module: it returns, raises, or a signal
    arrives, after which it goes on as [k] when the handler returned and
    as [h e] when the handler raised [e] into it ([h] is [Raises] for code
    that does not catch the exception). *)
Inductive code : Type :=
| Returns
| Raises (e : obj)
| Signal (signum : Z) (k : code) (h : obj -> code).

Inductive outcome : Type :=
| Returned
| Raised (e : obj)
| Unhandled (signum : Z).  (* a signal arrived whose disposition is not
                              the handler: left to the process *)

Fixpoint run_code (pf : platform) (rt : runtime) (c : code) (st : state)
  : outcome * state :=
  match c with
  | Returns => (Returned, st)
  | Raises e => (Raised e, st)
  | Signal signum k h =>
      match handlers st !! signum with
      | Some Handler =>
          match interrupt_handler pf rt signum st with
          | (Ok _, st') => run_code pf rt k st'
          | (Raise e, st') => run_code pf rt (h e) st'
          end
      | _ => (Unhandled signum, st)
      end
  end.

(** The two loops over [_INTERRUPT_SIGNALS]: a signal the platform lacks
    is skipped ([AttributeError] is caught); [signal.signal] raises
    [ValueError] outside the main thread. *)
Fixpoint install (pf : platform) (d : disposition) (sigs : list string)
    (st : state) : result () * state :=
  match sigs with
  | [] => (Ok (), st)
  | sig :: rest =>
      match signal_number pf sig with
      | None => install pf d rest st
      | Some signum =>
          if in_main_thread pf
          then install pf d rest (set_handler signum d st)
          else (raise ValueError, st)
      end
  end.

(** The [try] statement around the [yield], given how the body ended:
    the [except Exception] clause, then the [finally] clause. *)
Definition except_clause (pf : platform) (rt : runtime) (exit_callback : code)
    (o : outcome) (st : state) : outcome * state :=
  match o with
  | Raised e =>
      if isinstance e Exception then
        if negb (exit_callback_called st) then
          match run_code pf rt exit_callback (log Invoked st) with
          | (Returned, st') => (Raised e, set_called (log Completed st'))
          | (o', st') => (o', st')
          end
        else (Raised e, st)
      else (Raised e, st)
  | _ => (o, st)
  end.

Definition finally_clause (pf : platform) (o : outcome) (st : state)
  : outcome * state :=
  match o with
  | Unhandled _ => (o, st)
  | _ =>
      match install pf SIG_DFL _INTERRUPT_SIGNALS st with
      | (Raise e, st') => (Raised e, st')
      | (Ok _, st') =>
          match interrupt st' with
          | Some i => (Raised i, st')
          | None => (o, st')
          end
      end
  end.

(** [if enabled is None: enabled = threading.current_thread() is
    threading.main_thread()]. *)
Definition resolve_enabled (pf : platform) (enabled : option bool) : bool :=
  match enabled with
  | None => in_main_thread pf
  | Some b => b
  end.

(** The first loop, run from the initial state: the handler installed
    for every interrupt signal that the platform has. *)
Definition armed (pf : platform) : result () * state :=
  install pf Handler _INTERRUPT_SIGNALS initial.

(** [with handle_interrupts(enabled, loop, exit_callback): body]. *)
Definition handle_interrupts (pf : platform) (rt : runtime)
    (enabled : option bool) (exit_callback body : code) : outcome * state :=
  if negb (resolve_enabled pf enabled) then run_code pf rt body initial
  else
    match armed pf with
    | (Raise e, st) => (Raised e, st)
    | (Ok _, st) =>
        let '(o, st) := run_code pf rt body st in
        let '(o, st) := except_clause pf rt exit_callback o st in
        finally_clause pf o st
    end.

(** A POSIX platform: SIGINT is 2 and SIGTERM is 15. *)
Definition posix : platform :=
  mkPlatform
    (fun name => if bool_decide (name = "SIGINT"%string) then Some 2
                 else if bool_decide (name = "SIGTERM"%string) then Some 15
                 else None)
    (fun n => if n =? 2 then Some (lit "Interrupt")
              else if n =? 15 then Some (lit "Terminated")
              else None)
    true.

(** *** The renderings of CPython, for concrete runs *)

(** A continuation byte of UTF-8, [10xxxxxx]. *)
Definition continuation (b : N) : bool := ((128 <=? b) && (b <=? 191))%N.

(** [bs.decode("utf-8")] with strict errors: [None] for ill-formed input
    (a stray or missing continuation byte, an overlong form, a surrogate,
    a code point above U+10FFFF, a byte above 0xF4). *)
Fixpoint utf8_decode (bs : list N) : option pystr :=
  match bs with
  | [] => Some []
  | b0 :: r0 =>
      if (b0 <? 128)%N then cons b0 <$> utf8_decode r0
      else
        match r0 with
        | [] => None
        | b1 :: r1 =>
            if ((194 <=? b0) && (b0 <=? 223))%N then
              if continuation b1
              then cons ((b0 - 192) * 64 + (b1 - 128))%N <$> utf8_decode r1
              else None
            else
              match r1 with
              | [] => None
              | b2 :: r2 =>
                  if ((224 <=? b0) && (b0 <=? 239))%N then
                    if ((if b0 =? 224 then 160 else 128) <=? b1)%N
                       && (b1 <=? (if b0 =? 237 then 159 else 191))%N
                       && continuation b2
                    then cons ((b0 - 224) * 4096 + (b1 - 128) * 64
                               + (b2 - 128))%N <$> utf8_decode r2
                    else None
                  else
                    match r2 with
                    | [] => None
                    | b3 :: r3 =>
                        if ((240 <=? b0) && (b0 <=? 244))%N
                           && ((if b0 =? 240 then 144 else 128) <=? b1)%N
                           && (b1 <=? (if b0 =? 244 then 143 else 191))%N
                           && continuation b2 && continuation b3
                        then cons ((b0 - 240) * 262144 + (b1 - 128) * 4096
                                   + (b2 - 128) * 64 + (b3 - 128))%N
                               <$> utf8_decode r3
                        else None
                    end
              end
        end
  end.

(** A hexadecimal digit, lower case. *)
Definition hex_digit (n : N) : N := (if n <? 10 then 48 + n else 87 + n)%N.

(** [\xNN]. *)
Definition hex_escape (c : N) : pystr :=
  [92; 120; hex_digit (c / 16); hex_digit (c mod 16)]%N.

(** The quote of a [repr]: a single quote, unless the text holds one and
    no double quote. *)
Definition repr_quote (s : list N) : N :=
  if existsb (N.eqb 39) s && negb (existsb (N.eqb 34) s) then 34%N else 39%N.

(** The escapes that [repr] of [bytes] and of [str] share. *)
Definition common_escape (quote c : N) : option pystr :=
  if (c =? 92)%N then Some [92; 92]%N
  else if (c =? quote)%N then Some [92; quote]%N
  else if (c =? 9)%N then Some [92; 116]%N
  else if (c =? 10)%N then Some [92; 110]%N
  else if (c =? 13)%N then Some [92; 114]%N
  else None.

(** [repr(b)] for bytes, which is also [str(b)]. *)
Definition bytes_repr (bs : list N) : pystr :=
  let quote := repr_quote bs in
  let escape b :=
    match common_escape quote b with
    | Some e => e
    | None => if ((b <? 32) || (127 <=? b))%N then hex_escape b else [b]
    end in
  [98%N; quote] ++ concat (map escape bs) ++ [quote].

(** [repr(s)] for a [str]. Whether a code point above U+007E is printable
    is a matter of the Unicode tables: here those up to U+00A0 and the
    soft hyphen U+00AD are escaped and the others kept, which is exact on
    ASCII and Latin-1 text. *)
Definition str_repr (s : pystr) : pystr :=
  let quote := repr_quote s in
  let escape c :=
    match common_escape quote c with
    | Some e => e
    | None =>
        if ((c <? 32) || ((127 <=? c) && (c <=? 160)) || (c =? 173))%N
        then hex_escape c else [c]
    end in
  [quote] ++ concat (map escape s) ++ [quote].

(** [repr(v)] for decoded JSON: the display of dicts and lists. *)
Fixpoint json_repr (v : json) : pystr :=
  match v with
  | JNull => lit "None"
  | JBool b => str_bool b
  | JNum z => str_int z
  | JStr s => str_repr s
  | JArr items => lit "[" ++ join (lit ", ") (map json_repr items) ++ lit "]"
  | JObj fields =>
      lit "{"
      ++ join (lit ", ")
           (map (fun kv => str_repr (fst kv) ++ lit ": " ++ json_repr (snd kv))
                fields)
      ++ lit "}"
  end.

(** *** [repr] of a float *)

(** [floor(log10(num / den))] for positive [num] and [den]. *)
Fixpoint decimal_exponent_below (fuel : nat) (num den j : Z) : Z :=
  match fuel with
  | O => - j
  | S fuel' =>
      if den <=? num * 10 ^ j then - j
      else decimal_exponent_below fuel' num den (j + 1)
  end.

Definition decimal_exponent (num den : Z) : Z :=
  if den <=? num then Z.of_nat (length (str_int (num / den))) - 1
  else decimal_exponent_below 400 num den 1.

(** [floor(num / den / 10^q)]. *)
Definition scaled_floor (num den q : Z) : Z :=
  if 0 <=? q then num / (den * 10 ^ q) else (num * 10 ^ (- q)) / den.

(** [c * 10^q] compared with [x / den]. *)
Definition compare_decimal (c q x den : Z) : comparison :=
  if 0 <=? q then (c * 10 ^ q * den ?= x) else (c * den ?= x * 10 ^ (- q)).

(** Whether the decimal [c * 10^q] reads back as the float between the
    midpoints [lo / den] and [hi / den]; a midpoint itself reads back as it
    when the mantissa is even. *)
Definition reads_back (even : bool) (lo hi den c q : Z) : bool :=
  match compare_decimal c q lo den with
  | Lt => false
  | Eq => even
  | Gt =>
      match compare_decimal c q hi den with
      | Lt => true
      | Eq => even
      | Gt => false
      end
  end.

(** The shortest decimal that reads back as the float [num / den], the
    closest to it among those: its digits as an integer and its power of
    ten, tried with [p], [p+1], ... significant digits. *)
Fixpoint shortest_decimal (fuel : nat) (even : bool) (num lo hi den t p : Z)
  : Z * Z :=
  let q := t - p + 1 in
  let below := scaled_floor num den q in
  match fuel with
  | O => (below, q)
  | S fuel' =>
      let above := below + 1 in
      match reads_back even lo hi den below q,
            reads_back even lo hi den above q with
      | true, true =>
          match compare_decimal (2 * below + 1) q (2 * num) den with
          | Gt => (below, q)
          | Lt => (above, q)
          | Eq => if Z.even below then (below, q) else (above, q)
          end
      | true, false => (below, q)
      | false, true => (above, q)
      | false, false => shortest_decimal fuel' even num lo hi den t (p + 1)
      end
  end.

(** Without the zeros at the end. *)
Definition strip_zeros (digits : pystr) : pystr :=
  rev ((fix drop (s : pystr) : pystr :=
          match s with
          | c :: s' => if (c =? 48)%N then drop s' else s
          | [] => []
          end) (rev digits)).

(** The display of the digits [0.d1d2... * 10^decpt] as [repr] lays it
    out: positional when [-4 < decpt <= 16], with an exponent otherwise. *)
Definition layout (digits : pystr) (decpt : Z) : pystr :=
  let n := Z.of_nat (length digits) in
  if (-4 <? decpt) && (decpt <=? 16) then
    if decpt <=? 0 then
      lit "0." ++ repeat 48%N (Z.to_nat (- decpt)) ++ digits
    else if n <=? decpt then
      digits ++ repeat 48%N (Z.to_nat (decpt - n)) ++ lit ".0"
    else
      firstn (Z.to_nat decpt) digits ++ lit "." ++ skipn (Z.to_nat decpt) digits
  else
    let e := decpt - 1 in
    firstn 1 digits
    ++ (match skipn 1 digits with [] => [] | rest => lit "." ++ rest end)
    ++ lit "e" ++ (if e <? 0 then lit "-" else lit "+")
    ++ (if Z.abs e <? 10 then lit "0" else [])
    ++ str_int (Z.abs e).

(** [repr] of the positive float [m * 2^e], [m] being its mantissa of at
    most 53 bits. *)
Definition finite_repr (m e : Z) : pystr :=
  let k := Z.max 0 (- e) + 2 in
  let den := 2 ^ k in
  let num := m * 2 ^ (e + k) in
  let half := 2 ^ (e + k - 1) in
  let hi := num + half in
  let lo := if (m =? 2 ^ 52) && (-1074 <? e) then num - half / 2
            else num - half in
  let t := decimal_exponent num den in
  let '(c, q) := shortest_decimal 17 (Z.even m) num lo hi den t 1 in
  let digits := str_int c in
  layout (strip_zeros digits) (Z.of_nat (length digits) + q).

(** [repr(x)] for a float, which is also [str(x)]. *)
Definition float_repr (f : float) : pystr :=
  match Prim2SF f with
  | S754_zero false => lit "0.0"
  | S754_zero true => lit "-0.0"
  | S754_infinity false => lit "inf"
  | S754_infinity true => lit "-inf"
  | S754_nan => lit "nan"
  | S754_finite s m e =>
      (if s then lit "-" else []) ++ finite_repr (Zpos m) e
  end.

(** The runtime of CPython on Linux: [str] of bytes, of decoded JSON and
    of floats, strict UTF-8 decoding, and what an f-string shows for the
    two kinds of enum members (an [http.HTTPStatus] member formats as its
    number, a member of hikari's [enums.Enum] as its name). *)
Definition sample_runtime : runtime :=
  mkRuntime float_repr bytes_repr
            (fun s => str_int (status_value s)) (fun c => lit (name c))
            (fun v => match v with JStr s => s | _ => json_repr v end)
            utf8_decode.

(** ** The per-bucket gate of the rate limiter *)

Module RateLimiter.

(** Modelled from the spec: the rate limiter's bucket and its [acquire]
    are not in the source files. A bucket has a capacity (requests per
    window), the remaining budget, the time at which the window resets,
    and the window length. *)
Record Bucket : Type := mkBucket {
  capacity : nat;
  remaining_budget : nat;
  reset_at : Z;
  reset_after : Z
}.

(** Modelled from the spec: the result of [acquire], a ticket or a
    rejection with the time to wait. *)
Inductive decision : Type :=
| Ticket
| Rejected (wait : Z).

(** Modelled from the spec: the replenishment of a bucket whose reset
    time has passed (the source of the gate is missing): the budget is
    back at capacity and a new window begins. *)
Definition replenish (now : Z) (b : Bucket) : Bucket :=
  mkBucket (capacity b) (capacity b) (now + reset_after b) (reset_after b).

(** Modelled from the spec: the reset time of the bucket has passed. *)
Definition expired (now : Z) (b : Bucket) : bool := reset_at b <=? now.

(** Modelled from the spec: [acquire] on one bucket (its source is
    missing). A request proceeds only if budget remains, or the reset time
    has passed, which first replenishes the budget; acquiring decrements
    the budget; otherwise the request is rejected with the wait until the
    reset. *)
Definition acquire (now : Z) (b : Bucket) : decision * Bucket :=
  let b := if expired now b then replenish now b else b in
  match remaining_budget b with
  | O => (Rejected (reset_at b - now), b)
  | S r => (Ticket, mkBucket (capacity b) r (reset_at b) (reset_after b))
  end.

(** Modelled from the spec: a sequence of requests to one bucket under a
    mocked clock (the simulation of the spec's testable property): the
    time of each request and whether it was admitted. *)
Fixpoint simulate (b : Bucket) (clock : list Z) : list (Z * bool) :=
  match clock with
  | [] => []
  | now :: rest =>
      match acquire now b with
      | (Ticket, b') => (now, true) :: simulate b' rest
      | (Rejected _, b') => (now, false) :: simulate b' rest
      end
  end.

(** Modelled from the spec: the reset times that the bucket has in the
    course of the same requests, the one it starts with and the one after
    each request. A reset window is the stretch of [reset_after] that ends
    at a reset time. *)
Fixpoint reset_times (b : Bucket) (clock : list Z) : list Z :=
  reset_at b ::
  match clock with
  | [] => []
  | now :: rest => reset_times (snd (acquire now b)) rest
  end.

(** The number of requests admitted at a time from [lo] up to, and not
    including, [hi]. *)
Definition admitted_between (lo hi : Z) (log : list (Z * bool)) : nat :=
  length (List.filter (fun r => snd r && (lo <=? fst r) && (fst r <? hi)) log).

End RateLimiter.

(** ** What a shard does when the server closes its connection *)

Module Shard.

(** Modelled from the spec: where a closure by the server leaves a shard
    connection (the shard is not in the source files). A recoverable
    closure goes back to connecting, then resumes if a session id is
    still held and identifies afresh otherwise; a fatal one is terminal:
    the connection goes to closing and the error is propagated. *)
Inductive reaction : Type :=
| Reconnect (resume : bool)
| Propagate (e : obj).

(** Modelled from the spec: the shard's handling of a
    [GatewayServerClosedConnectionError] (missing in the source), with
    [can_reconnect] read as its docstring in [hikari.errors] says: if
    true, a reconnect is tried rather than the error being propagated to
    the caller; if false, the error is raised. *)
Definition on_server_close (e : obj) (session_held : bool) : result reaction :=
  can_reconnect ← getattr e "can_reconnect";
  Ok (if truthy can_reconnect then Reconnect session_held else Propagate e).

End Shard.

(** ** More of hikari.errors *)


(** How [_dump_errors] can fail. *)
Inductive dump_failure : Type :=
| MissingMessage      (* KeyError: an item has no ['message'] *)
| NotSubscriptable    (* TypeError: an item cannot be indexed by a str *)
| NoItems.            (* AttributeError: the value has no [items()] *)

Inductive dump_result : Type :=
| Dumped (s : pystr)
| DumpFails (f : dump_failure).

(** [d[key]] on a decoded JSON object. *)
Fixpoint json_get (key : pystr) (fields : list (pystr * json)) : option json :=
  match fields with
  | [] => None
  | (k, v) :: rest => if bool_decide (k = key) then Some v else json_get key rest
  end.

(** [str(v)] for decoded JSON: a JSON string is a [str]. *)
Definition json_str (rt : runtime) (v : json) : pystr :=
  match v with
  | JStr s => s
  | JNull => lit "None"
  | JBool b => str_bool b
  | JNum z => str_int z
  | _ => str_json rt v
  end.

(** The start of a line of [_dump_errors]: a newline, then " - ". *)
Definition bullet : pystr := [10; 32; 45; 32]%N.

Definition two_newlines : pystr := [10; 10]%N.

(** The inner loop of [_dump_errors], [for item in value:], over a list:
    one line per item. *)
Fixpoint dump_items (rt : runtime) (items : list json) : dump_result :=
  match items with
  | [] => Dumped []
  | item :: rest =>
      match item with
      | JObj fields =>
          match json_get (lit "message") fields with
          | None => DumpFails MissingMessage
          | Some m =>
              match dump_items rt rest with
              | Dumped lines => Dumped (bullet ++ json_str rt m ++ lines)
              | DumpFails f => DumpFails f
              end
          end
      | _ => DumpFails NotSubscriptable
      end
  end.

(** [obj_string or "root"]. *)
Definition label_of (obj_string : pystr) : pystr :=
  match obj_string with
  | [] => lit "root"
  | _ => obj_string
  end.

(** [f"{obj_string}{'.' if obj_string else ''}{key}"]. *)
Definition extend_path (obj_string key : pystr) : pystr :=
  obj_string ++ (match obj_string with [] => lit "" | _ => lit "." end) ++ key.

(** The outer loop of [_dump_errors], [for key, value in obj.items():],
    with [string] as built so far; [rec] is the recursive call. Lists and
    strings are the [typing.Sequence] values; iterating a non-empty string
    indexes its one-character items by ['message'], a [TypeError]. *)
Definition dump_fields (rt : runtime) (rec : json -> pystr -> dump_result)
    (obj_string : pystr)
  : list (pystr * json) -> pystr -> dump_result :=
  fix loop (fields : list (pystr * json)) (string : pystr) : dump_result :=
    match fields with
    | [] => Dumped string
    | (key, value) :: rest =>
        match value with
        | JArr items =>
            match dump_items rt items with
            | Dumped lines =>
                loop rest (string ++ label_of obj_string ++ lit ":"
                           ++ lines ++ two_newlines)
            | DumpFails f => DumpFails f
            end
        | JStr [] =>
            loop rest (string ++ label_of obj_string ++ lit ":"
                       ++ two_newlines)
        | JStr (_ :: _) => DumpFails NotSubscriptable
        | _ =>
            match rec value (extend_path obj_string key) with
            | Dumped s => loop rest (string ++ s)
            | DumpFails f => DumpFails f
            end
        end
    end.

(** [_dump_errors(obj, obj_string)]. *)
Fixpoint _dump_errors (rt : runtime) (obj : json) (obj_string : pystr)
    {struct obj} : dump_result :=
  match obj with
  | JObj fields => dump_fields rt (_dump_errors rt) obj_string fields []
  | _ => DumpFails NoItems
  end.

(** [s.lstrip("\n")]. *)
Fixpoint lstrip_newlines (s : pystr) : pystr :=
  match s with
  | c :: s' => if (c =? 10)%N then lstrip_newlines s' else s
  | [] => []
  end.

(** [s.strip("\n")]. *)
Definition strip_newlines (s : pystr) : pystr :=
  rev (lstrip_newlines (rev (lstrip_newlines s))).

(** [BadRequestError.__str__]: the text and the instance afterwards (the
    text is cached in [_cached_str]). [dumps] is
    [json.dumps(..., indent=2)]. Only [KeyError] is caught around
    [_dump_errors]. *)
Definition BadRequestError__str__ (rt : runtime) (dumps : json -> pystr)
    (self : obj) : result pystr * obj :=
  match getattr self "_cached_str" with
  | Raise e => (Raise e, self)
  | Ok cached =>
      if truthy cached then
        match cached with
        | VStr s => (Ok s, self)
        | _ => (raise TypeError, self)
        end
      else
        match HTTPResponseError__str__ rt self with
        | Raise e => (Raise e, self)
        | Ok value =>
            match getattr self "errors" with
            | Raise e => (Raise e, self)
            | Ok errors =>
                if truthy errors then
                  match errors with
                  | VJson j =>
                      match _dump_errors rt j [] with
                      | Dumped s =>
                          let value := value ++ two_newlines ++ strip_newlines s in
                          (Ok value, setattr self "_cached_str" (VStr value))
                      | DumpFails MissingMessage =>
                          let value := value ++ two_newlines ++ dumps j in
                          (Ok value, setattr self "_cached_str" (VStr value))
                      | DumpFails NotSubscriptable => (raise TypeError, self)
                      | DumpFails NoItems => (raise AttributeError, self)
                      end
                  | _ => (raise AttributeError, self)
                  end
                else (Ok value, setattr self "_cached_str" (VStr value))
            end
        end
  end.

(** ** docs.patched_pdoc *)

Module Doc.
(** The attributes of a [pdoc.doc.Doc] that [_add_to_inventory] reads. *)
Record t : Type := mk {
  name : pystr;
  modulename : pystr;
  qualname : pystr;
  fullname : pystr;
  type : pystr
}.
End Doc.

Module DataObjStr.
(** The keyword arguments of [sphobjinv.DataObjStr]. *)
Record t : Type := mk {
  name : pystr;
  domain : pystr;
  role : pystr;
  uri : pystr;
  priority : pystr;
  dispname : pystr
}.
End DataObjStr.

(** The dict [type_to_role], in the order of its display. *)
Definition type_to_role : list (pystr * pystr) :=
  [ (lit "module", lit "module"); (lit "class", lit "class");
    (lit "function", lit "func"); (lit "variable", lit "var") ].

(** [d[key]] on a dict of strings ([None] for [KeyError]). *)
Fixpoint dict_get (key : pystr) (d : list (pystr * pystr)) : option pystr :=
  match d with
  | [] => None
  | (k, v) :: rest => if bool_decide (k = key) then Some v else dict_get key rest
  end.

(** [s.startswith(prefix)]. *)
Definition startswith (prefix s : pystr) : bool :=
  bool_decide (firstn (length prefix) s = prefix).

(** [s.replace(old, new)] for one-character [old] and [new]. *)
Definition replace_char (old new : N) (s : pystr) : pystr :=
  map (fun c => if (c =? old)%N then new else c) s.

(** [_add_to_inventory(dobj)], with [project_inventory.objects] before and
    after the call; the result is [None] when the call raises [KeyError]
    (the lookup in [type_to_role] comes before the [append]). *)
Definition _add_to_inventory (objects : list DataObjStr.t) (dobj : Doc.t)
  : option pystr * list DataObjStr.t :=
  if startswith (lit "_") (Doc.name dobj) then (Some (lit ""), objects)
  else
    let uri := replace_char 46 47 (Doc.modulename dobj) ++ lit ".html" in
    let uri := match Doc.qualname dobj with
               | [] => uri
               | _ => uri ++ lit "#" ++ Doc.qualname dobj
               end in
    match dict_get (Doc.type dobj) type_to_role with
    | None => (None, objects)
    | Some role =>
        (Some (lit ""),
         objects ++ [DataObjStr.mk (Doc.fullname dobj) (lit "py") role uri
                       (lit "1") (lit "-")])
    end.

(** ** Helpers for the statements *)

(** The keyword arguments of a call
    [RateLimitTooLongError(route=r, is_global=g, retry_after=w,
    max_retry_after=m, reset_at=t, limit=l, period=p)]. *)
Definition rate_limit_kwargs (r g w m t l p : pyval) : gmap string pyval :=
  <["route"%string := r]> (<["is_global"%string := g]>
  (<["retry_after"%string := w]> (<["max_retry_after"%string := m]>
  (<["reset_at"%string := t]> (<["limit"%string := l]>
  (<["period"%string := p]> ∅)))))).

(** [part] occurs in [s]. *)
Definition occurs_in (part s : pystr) : Prop :=
  exists pre post, s = pre ++ part ++ post.

(** The keyword arguments of a call
    [GatewayServerClosedConnectionError(reason=s, code=c,
    can_reconnect=b)]. *)
Definition closed_kwargs (s c b : pyval) : gmap string pyval :=
  <["reason"%string := s]> (<["code"%string := c]>
  (<["can_reconnect"%string := b]> ∅)).

(** Code during which no signal arrives. *)
Definition signal_free (c : code) : bool :=
  match c with
  | Signal _ _ _ => false
  | _ => true
  end.

(** How many times [exit_callback()] was called. *)
Definition invocations (st : state) : nat :=
  length (List.filter (fun ev => bool_decide (ev = Invoked)) (events st)).

Ltac lookups :=
  unfold getattr, setattr, arg; simpl;
  repeat (rewrite lookup_insert_eq || rewrite lookup_insert_ne by done
          || rewrite lookup_singleton_eq || rewrite lookup_empty);
  simpl.

(** The keywords that the constructor of a status-specific error takes. *)
Definition client_error_keywords (c : class) : list string :=
  ["url"; "headers"; "raw_body"; "code"; "message"]%string
  ++ (if bool_decide (c = BadRequestError) then ["errors"%string] else []).

(** The exception and warning classes that [hikari.errors] defines: all
    its classes but the enum [ShardCloseCode], which derives from [int]
    and is modelled above by the type of its members. *)
Definition hikari_exceptions : list class :=
  [ HikariError; HikariWarning; HikariInterrupt; ComponentStateConflictError;
    UnrecognisedEntityError; GatewayError; GatewayConnectionError;
    GatewayServerClosedConnectionError; HTTPError; HTTPResponseError;
    ClientHTTPResponseError; BadRequestError; UnauthorizedError;
    ForbiddenError; NotFoundError; RateLimitTooLongError;
    InternalServerError; MissingIntentWarning; BulkDeleteError; VoiceError;
    MissingIntentError ].

(** All classes of the model. *)
Definition all_classes : list class :=
  [ BaseException; Exception; KeyboardInterrupt; RuntimeError; ValueError;
    TypeError; AttributeError; AssertionError; Warning; RuntimeWarning ]
  ++ hikari_exceptions.

(** How the text of each status-specific error begins. *)
Definition status_line (c : class) : pystr :=
  match c with
  | BadRequestError => lit "Bad Request 400:"
  | UnauthorizedError => lit "Unauthorized 401:"
  | ForbiddenError => lit "Forbidden 403:"
  | NotFoundError => lit "Not Found 404:"
  | _ => lit ""
  end.

(** [leaf] under the keys [ks], outermost first: [{k1: {k2: ... leaf}}]. *)
Fixpoint nested (ks : list pystr) (leaf : json) : json :=
  match ks with
  | [] => leaf
  | k :: ks' => JObj [(k, nested ks' leaf)]
  end.

(** The errors of one field as Discord sends them: the list under
    ["_errors"], under the keys that lead to the field. *)
Definition field_errors (ks : list pystr) (items : list json) : json :=
  nested ks (JObj [(lit "_errors", JArr items)]).

(** One entry of such a list. *)
Definition error_item (code message : pystr) : json :=
  JObj [(lit "code", JStr code); (lit "message", JStr message)].

(** The lines that [_dump_errors] writes for a list of messages. *)
Definition message_lines (messages : list pystr) : pystr :=
  concat (map (fun m => bullet ++ m) messages).

(** An item of an error list that has a ['message']. *)
Definition has_message (item : json) : Prop :=
  exists fields m, item = JObj fields /\ json_get (lit "message") fields = Some m.

(** An item of an error list that is a dict without ['message']. *)
Definition lacks_message (item : json) : Prop :=
  exists fields, item = JObj fields /\ json_get (lit "message") fields = None.

(** An item of an error list that is not a dict. *)
Definition not_a_dict (item : json) : Prop :=
  forall fields, item <> JObj fields.

(** * Properties *)

(** ** Argument binding *)

Lemma bind_params_lookup ps kwargs b k :
  bind_params ps kwargs = Ok b ->
  b !! k = match find_param ps k with
           | None => None
           | Some d => match kwargs !! k with Some v => Some v | None => d end
           end.
Proof.
  revert b. induction ps as [|[name d] ps IH]; intros b Hb; simpl in *.
  - inversion Hb. apply lookup_empty.
  - destruct (bind_params ps kwargs) as [rest|e] eqn:Hrest; simpl in Hb;
      [|discriminate].
    specialize (IH rest eq_refl).
    case_bool_decide as Hk.
    + subst k. destruct (kwargs !! name) as [v|]; [|destruct d]; inversion Hb;
        subst; by rewrite ?lookup_insert_eq.
    + destruct (kwargs !! name) as [v|] eqn:Hn; [|destruct d]; inversion Hb;
        subst; by rewrite lookup_insert_ne.
Qed.

Lemma bind_kwonly_inv ps args kwargs b :
  bind_kwonly ps args kwargs = Ok b ->
  args = [] /\
  (forall k, is_Some (kwargs !! k) -> has_param ps k = true) /\
  bind_params ps kwargs = Ok b.
Proof.
  unfold bind_kwonly. destruct args; [|discriminate].
  destruct (forallb _ _) eqn:Hall; [|discriminate].
  intros Hb. split; [done|]. split; [|done].
  intros k [v Hv]. rewrite forallb_forall in Hall. apply Hall.
  apply in_map_iff. exists (k, v). split; [done|].
  apply list_elem_of_In, elem_of_map_to_list. done.
Qed.

Lemma bind_kwonly_known ps kwargs :
  (forall k, is_Some (kwargs !! k) -> has_param ps k = true) ->
  bind_kwonly ps [] kwargs = bind_params ps kwargs.
Proof.
  intros Hk. unfold bind_kwonly.
  destruct (forallb _ _) eqn:Hall; [done|].
  apply not_true_iff_false in Hall. exfalso. apply Hall.
  apply forallb_forall. intros k Hin.
  apply in_map_iff in Hin as [[k' v] [<- Hin]].
  apply Hk. exists v. apply elem_of_map_to_list, list_elem_of_In. done.
Qed.

Lemma has_param_find ps k :
  has_param ps k = true <-> is_Some (find_param ps k).
Proof.
  induction ps as [|[name d] ps IH]; simpl.
  - split; [discriminate | intros [? ?]; discriminate].
  - case_bool_decide; simpl; [split; eauto | exact IH].
Qed.

Lemma bind_params_required ps kwargs b k :
  bind_params ps kwargs = Ok b -> find_param ps k = Some None ->
  is_Some (kwargs !! k).
Proof.
  revert b. induction ps as [|[name d] ps IH]; intros b Hb Hf; simpl in *.
  - discriminate Hf.
  - destruct (bind_params ps kwargs) as [rest|e] eqn:Hrest; simpl in Hb;
      [|discriminate Hb].
    case_bool_decide as Hk.
    + subst k. injection Hf as ->.
      destruct (kwargs !! name); [eauto|discriminate Hb].
    + by apply (IH rest).
Qed.

Lemma bind_params_total ps kwargs :
  (forall k, In (k, None) ps -> is_Some (kwargs !! k)) ->
  exists b, bind_params ps kwargs = Ok b.
Proof.
  induction ps as [|[name d] ps IH]; intros Hreq; simpl.
  - eauto.
  - destruct IH as [rest ->]; [intros k Hk; apply Hreq; by right|]. simpl.
    destruct (kwargs !! name) as [v|] eqn:Hv; [eauto|].
    destruct d as [d|]; [eauto|].
    destruct (Hreq name) as [v' Hv']; [by left|]. congruence.
Qed.

Lemma bind_kwonly_total ps kwargs :
  (forall k, is_Some (kwargs !! k) -> has_param ps k = true) ->
  (forall k, In (k, None) ps -> is_Some (kwargs !! k)) ->
  exists b, bind_kwonly ps [] kwargs = Ok b.
Proof.
  intros Hknown Hreq. rewrite (bind_kwonly_known _ _ Hknown).
  by apply bind_params_total.
Qed.

Lemma bind_params_needs ps kwargs b k :
  bind_params ps kwargs = Ok b -> In (k, None) ps -> is_Some (kwargs !! k).
Proof.
  revert b. induction ps as [|[name d] ps IH]; intros b Hb Hin; simpl in *.
  - destruct Hin.
  - destruct (bind_params ps kwargs) as [rest|e] eqn:Hrest; simpl in Hb;
      [|discriminate Hb].
    destruct Hin as [[= -> ->]|Hin]; [|by apply (IH rest)].
    destruct (kwargs !! k); [eauto|discriminate Hb].
Qed.

Lemma has_param_In ps k : has_param ps k = true <-> In k (map fst ps).
Proof.
  unfold has_param. induction ps as [|[name d] ps IH]; simpl.
  - split; [discriminate|tauto].
  - case_bool_decide as Hk; simpl.
    + split; [by left|done].
    + rewrite IH. split; [by right|]. intros [H|H]; [done|exact H].
Qed.

(** A call with keyword-only parameters binds exactly when there is no
    positional argument, every parameter without default is given, and
    every keyword names a parameter. *)
Lemma bind_kwonly_iff ps args kwargs :
  (exists b, bind_kwonly ps args kwargs = Ok b) <->
  args = [] /\
  (forall k, In (k, None) ps -> is_Some (kwargs !! k)) /\
  (forall k, is_Some (kwargs !! k) -> In k (map fst ps)).
Proof.
  split.
  - intros [b Hb]. apply bind_kwonly_inv in Hb as (-> & Hknown & Hb).
    split; [done|]. split.
    + intros k. by apply (bind_params_needs _ _ _ _ Hb).
    + intros k Hk. by apply has_param_In, Hknown.
  - intros (-> & Hreq & Hknown). apply bind_kwonly_total; [|exact Hreq].
    intros k Hk. by apply has_param_In, Hknown.
Qed.

(** ** Close codes *)

Lemma floor_div_1000 (v : Z) : (v / 1000 =? 1) = true <-> 1000 <= v <= 1999.
Proof.
  rewrite Z.eqb_eq. split.
  - intros H. pose proof (Z.div_mod v 1000 ltac:(lia)) as Hd.
    pose proof (Z.mod_pos_bound v 1000 ltac:(lia)). rewrite H in Hd. lia.
  - intros H. symmetry. apply (Z.div_unique v 1000 1 (v - 1000)); lia.
Qed.

(** C4. For every member of [ShardCloseCode], [is_standard] is [True]
    exactly when the member's value lies in 1000..1999; every member whose
    value is 4000 or more, which are the members from [UNKNOWN_ERROR] to
    [DISALLOWED_INTENT], reports [False]. *)
Theorem is_standard_iff_1000_range :
  (forall c, is_standard c = true <-> 1000 <= value c <= 1999) /\
  (forall c, 4000 <= value c -> is_standard c = false) /\
  (forall c, 4000 <= value c <->
     In c [UNKNOWN_ERROR; UNKNOWN_OPCODE; DECODE_ERROR; NOT_AUTHENTICATED;
           AUTHENTICATION_FAILED; ALREADY_AUTHENTICATED; INVALID_SEQ;
           RATE_LIMITED; SESSION_TIMEOUT; INVALID_SHARD; SHARDING_REQUIRED;
           INVALID_VERSION; INVALID_INTENT; DISALLOWED_INTENT]).
Proof.
  split; [|split].
  - intros c. unfold is_standard. apply floor_div_1000.
  - intros c Hc. unfold is_standard.
    apply not_true_iff_false. rewrite floor_div_1000. lia.
  - intros c. split.
    + destruct c; simpl; intros H; try lia; tauto.
    + simpl. intros H.
      repeat (destruct H as [<-|H]; [simpl; lia|]). destruct H.
Qed.

Lemma is_standard_iff_1000_range_witness :
  4000 <= value SESSION_TIMEOUT /\ is_standard SESSION_TIMEOUT = false /\
  is_standard GOING_AWAY = true.
Proof.
  split; [simpl; lia|]. split.
  - apply (proj1 (proj2 is_standard_iff_1000_range) SESSION_TIMEOUT).
    simpl; lia.
  - apply (proj1 is_standard_iff_1000_range GOING_AWAY). simpl; lia.
Defined.

Lemma with_status_known st b k :
  is_Some (with_status st b !! k) ->
  has_param [("url", None); ("status", None); ("headers", None);
             ("raw_body", None); ("code", Some (VInt 0));
             ("message", Some (VStr []))]%string k = true.
Proof.
  unfold with_status. intros [v Hv].
  repeat (apply lookup_insert_Some in Hv as [[<- _]|[_ Hv]]; [reflexivity|]).
  rewrite lookup_empty in Hv. discriminate.
Qed.

Lemma singleton_known (name : string) (v : pyval) d k :
  is_Some (({[ name := v ]} : gmap string pyval) !! k) ->
  has_param [(name, d)] k = true.
Proof.
  intros [w Hw]. apply lookup_singleton_Some in Hw as [<- _].
  simpl. by rewrite bool_decide_eq_true_2.
Qed.

Lemma HTTPError__init__message self v :
  HTTPError__init__ self [] {[ "message"%string := v ]}
  = Ok (setattr self "message" v).
Proof.
  unfold HTTPError__init__.
  rewrite (bind_kwonly_known _ _ (singleton_known _ _ _)).
  simpl. rewrite lookup_singleton_eq. simpl. unfold arg.
  by rewrite lookup_insert_eq.
Qed.

Lemma HTTPResponseError__init__with_status self st b :
  exists o, HTTPResponseError__init__ self [] (with_status st b) = Ok o /\
    cls o = cls self /\
    getattr o "status" = Ok (VStatus st) /\
    getattr o "url" = Ok (arg b "url") /\
    getattr o "headers" = Ok (arg b "headers") /\
    getattr o "raw_body" = Ok (arg b "raw_body") /\
    getattr o "code" = Ok (arg b "code") /\
    getattr o "message" = Ok (arg b "message") /\
    (forall k, dict self !! k = None ->
       ~ In k ["status"; "url"; "headers"; "raw_body"; "code"; "message"]%string ->
       dict o !! k = None).
Proof.
  unfold HTTPResponseError__init__.
  rewrite (bind_kwonly_known _ _ (with_status_known st b)).
  unfold with_status. simpl bind_params.
  repeat (rewrite lookup_insert_eq || rewrite lookup_insert_ne by done).
  simpl. rewrite HTTPError__init__message. simpl.
  eexists; split; [reflexivity|].
  split; [reflexivity|].
  repeat (split; [by lookups|]).
  intros k Hk Hn. simpl in *.
  repeat (rewrite lookup_insert_ne by (intros <-; apply Hn; simpl; tauto)).
  done.
Qed.

Lemma getattr_setattr_eq o name v : getattr (setattr o name v) name = Ok v.
Proof. unfold getattr, setattr; simpl. by rewrite lookup_insert_eq. Qed.

Lemma getattr_setattr_ne o name v k :
  name <> k -> getattr (setattr o name v) k = getattr o k.
Proof. intros H. unfold getattr, setattr; simpl. by rewrite lookup_insert_ne. Qed.

Lemma arg_bound ps kwargs b k d :
  bind_params ps kwargs = Ok b -> find_param ps k = Some d ->
  arg b k = default (default VNone d) (kwargs !! k).
Proof.
  intros Hb Hf. unfold arg. rewrite (bind_params_lookup _ _ _ k Hb), Hf.
  by destruct (kwargs !! k), d.
Qed.

Lemma unknown_keyword ps args kwargs b k :
  bind_kwonly ps args kwargs = Ok b -> has_param ps k = false ->
  kwargs !! k = None.
Proof.
  intros Hb Hk. apply bind_kwonly_inv in Hb as (_ & Hknown & _).
  destruct (kwargs !! k) eqn:E; [|done].
  rewrite Hknown in Hk; [discriminate|]. rewrite E. eauto.
Qed.

Lemma status_error__init__status st self args kwargs o :
  status_error__init__ st self args kwargs = Ok o ->
  getattr o "status" = Ok (VStatus st) /\ cls o = cls self /\
  args = [] /\ kwargs !! "status"%string = None.
Proof.
  unfold status_error__init__.
  destruct (bind_kwonly _ args kwargs) as [b|e] eqn:Hb; simpl; [|discriminate].
  destruct (HTTPResponseError__init__with_status self st b)
    as (o' & -> & Hcls & Hst & _).
  intros [= <-]. repeat split; try done.
  - by apply bind_kwonly_inv in Hb as (-> & _).
  - by apply (unknown_keyword _ _ _ _ _ Hb).
Qed.

Lemma BadRequestError__init__status self args kwargs o :
  BadRequestError__init__ self args kwargs = Ok o ->
  getattr o "status" = Ok (VStatus BAD_REQUEST) /\ cls o = cls self /\
  args = [] /\ kwargs !! "status"%string = None /\
  getattr o "errors" = Ok (default VNone (kwargs !! "errors"%string)).
Proof.
  unfold BadRequestError__init__.
  destruct (bind_kwonly _ args kwargs) as [b|e] eqn:Hb; simpl; [|discriminate].
  destruct (HTTPResponseError__init__with_status self BAD_REQUEST b)
    as (o' & -> & Hcls & Hst & _).
  intros [= <-]. repeat split; try done.
  - by rewrite !getattr_setattr_ne.
  - by apply bind_kwonly_inv in Hb as (-> & _).
  - by apply (unknown_keyword _ _ _ _ _ Hb).
  - rewrite getattr_setattr_ne, getattr_setattr_eq by done.
    apply bind_kwonly_inv in Hb as (_ & _ & Hb).
    by rewrite (arg_bound _ _ _ "errors" (Some VNone) Hb).
Qed.

Lemma status_error_constructible st self args kwargs :
  (exists o, status_error__init__ st self args kwargs = Ok o) <->
  args = [] /\
  (forall k, In k ["url"; "headers"; "raw_body"]%string ->
             is_Some (kwargs !! k)) /\
  (forall k, is_Some (kwargs !! k) ->
             In k ["url"; "headers"; "raw_body"; "code"; "message"]%string).
Proof.
  unfold status_error__init__.
  pose proof (bind_kwonly_iff
                [("url", None); ("headers", None); ("raw_body", None);
                 ("code", Some (VInt 0)); ("message", Some (VStr []))]%string
                args kwargs) as Hbind.
  cbn [map fst] in Hbind. split.
  - intros [o Ho].
    destruct (bind_kwonly _ args kwargs) as [b|e] eqn:Hb; [|discriminate Ho].
    destruct (proj1 Hbind (ex_intro _ b eq_refl)) as (Hargs & Hreq & Hknown).
    split; [exact Hargs|]. split; [|exact Hknown].
    intros k Hk. apply Hreq. simpl in Hk |- *.
    destruct Hk as [<-|[<-|[<-|[]]]]; tauto.
  - intros (Hargs & Hreq & Hknown).
    destruct (proj2 Hbind) as [b ->].
    + split; [exact Hargs|]. split; [|exact Hknown].
      intros k Hk. apply Hreq. simpl in Hk |- *.
      destruct Hk as [[= <-]|[[= <-]|[[= <-]|[[=]|[[=]|[]]]]]]; tauto.
    + cbn [mbind result_bind].
      destruct (HTTPResponseError__init__with_status self st b)
        as (o & -> & _). eauto.
Qed.

Lemma BadRequestError_constructible self args kwargs :
  (exists o, BadRequestError__init__ self args kwargs = Ok o) <->
  args = [] /\
  (forall k, In k ["url"; "headers"; "raw_body"]%string ->
             is_Some (kwargs !! k)) /\
  (forall k, is_Some (kwargs !! k) ->
             In k ["url"; "headers"; "raw_body"; "code"; "message";
                   "errors"]%string).
Proof.
  unfold BadRequestError__init__.
  pose proof (bind_kwonly_iff
                [("url", None); ("headers", None); ("raw_body", None);
                 ("code", Some (VInt 0)); ("message", Some (VStr []));
                 ("errors", Some VNone)]%string
                args kwargs) as Hbind.
  cbn [map fst] in Hbind. split.
  - intros [o Ho].
    destruct (bind_kwonly _ args kwargs) as [b|e] eqn:Hb; [|discriminate Ho].
    destruct (proj1 Hbind (ex_intro _ b eq_refl)) as (Hargs & Hreq & Hknown).
    split; [exact Hargs|]. split; [|exact Hknown].
    intros k Hk. apply Hreq. simpl in Hk |- *.
    destruct Hk as [<-|[<-|[<-|[]]]]; tauto.
  - intros (Hargs & Hreq & Hknown).
    destruct (proj2 Hbind) as [b ->].
    + split; [exact Hargs|]. split; [|exact Hknown].
      intros k Hk. apply Hreq. simpl in Hk |- *.
      destruct Hk as [[= <-]|[[= <-]|[[= <-]|[[=]|[[=]|[[=]|[]]]]]]]; tauto.
    + cbn [mbind result_bind].
      destruct (HTTPResponseError__init__with_status self BAD_REQUEST b)
        as (o & -> & _). cbn [mbind result_bind]. eauto.
Qed.

(** C3. Every constructed [BadRequestError] has status 400
    ([BAD_REQUEST]), every [UnauthorizedError] 401, every [ForbiddenError]
    403 and every [NotFoundError] 404, whatever the other arguments are; no
    constructor accepts a [status] argument; each instance is a
    [ClientHTTPResponseError] with a 4xx status; and a [BadRequestError]
    carries the [errors] mapping it was given ([None] when none was).
    Such instances exist: each constructor succeeds exactly when it is
    called without positional arguments, with [url], [headers] and
    [raw_body], and with no keyword besides these, [code], [message] and,
    for [BadRequestError], [errors]. *)
Theorem client_errors_have_fixed_status (rt : runtime) (args : list pyval)
    (kwargs : gmap string pyval) (o : obj) :
  (new rt BadRequestError args kwargs = Ok o ->
     getattr o "status" = Ok (VStatus BAD_REQUEST) /\
     status_value BAD_REQUEST = 400 /\
     getattr o "errors" = Ok (default VNone (kwargs !! "errors"%string))) /\
  (new rt UnauthorizedError args kwargs = Ok o ->
     getattr o "status" = Ok (VStatus UNAUTHORIZED) /\
     status_value UNAUTHORIZED = 401) /\
  (new rt ForbiddenError args kwargs = Ok o ->
     getattr o "status" = Ok (VStatus FORBIDDEN) /\
     status_value FORBIDDEN = 403) /\
  (new rt NotFoundError args kwargs = Ok o ->
     getattr o "status" = Ok (VStatus NOT_FOUND) /\
     status_value NOT_FOUND = 404) /\
  (forall c, In c [BadRequestError; UnauthorizedError; ForbiddenError;
                   NotFoundError] ->
     new rt c args kwargs = Ok o ->
     kwargs !! "status"%string = None /\
     isinstance o ClientHTTPResponseError = true /\
     exists st, getattr o "status" = Ok (VStatus st) /\
                400 <= status_value st <= 499) /\
  (forall c, In c [BadRequestError; UnauthorizedError; ForbiddenError;
                   NotFoundError] ->
     ((exists built, new rt c args kwargs = Ok built) <->
      args = [] /\
      (forall k, In k ["url"; "headers"; "raw_body"]%string ->
                 is_Some (kwargs !! k)) /\
      (forall k, is_Some (kwargs !! k) -> In k (client_error_keywords c)))).
Proof.
  split; [|split; [|split; [|split; [|split]]]].
  - intros H. split; [|split; [reflexivity|]].
    + by apply BadRequestError__init__status in H as (? & _).
    + by apply BadRequestError__init__status in H as (_ & _ & _ & _ & ?).
  - intros H. split; [|reflexivity].
    by apply status_error__init__status in H as (? & _).
  - intros H. split; [|reflexivity].
    by apply status_error__init__status in H as (? & _).
  - intros H. split; [|reflexivity].
    by apply status_error__init__status in H as (? & _).
  - intros c Hc Hnew. simpl in Hc.
    assert (exists st, getattr o "status" = Ok (VStatus st) /\
                       400 <= status_value st <= 499 /\ cls o = c /\
                       kwargs !! "status"%string = None)
      as (st & Hst & Hrange & Hcls & Hkw).
    { destruct Hc as [<-|[<-|[<-|[<-|[]]]]]; unfold new in Hnew.
      - apply BadRequestError__init__status in Hnew as (? & ? & _ & ? & _).
        exists BAD_REQUEST. repeat split; try done; simpl; lia.
      - apply status_error__init__status in Hnew as (? & ? & _ & ?).
        exists UNAUTHORIZED. repeat split; try done; simpl; lia.
      - apply status_error__init__status in Hnew as (? & ? & _ & ?).
        exists FORBIDDEN. repeat split; try done; simpl; lia.
      - apply status_error__init__status in Hnew as (? & ? & _ & ?).
        exists NOT_FOUND. repeat split; try done; simpl; lia. }
    split; [exact Hkw|]. split; [|eauto].
    unfold isinstance. rewrite Hcls.
    destruct Hc as [<-|[<-|[<-|[<-|[]]]]]; reflexivity.
  - intros c Hc. simpl in Hc.
    destruct Hc as [<-|[<-|[<-|[<-|[]]]]]; unfold new.
    + apply BadRequestError_constructible.
    + apply status_error_constructible.
    + apply status_error_constructible.
    + apply status_error_constructible.
Qed.

Lemma client_errors_have_fixed_status_witness :
  let errors :=
    VJson (field_errors [lit "name"]
             [error_item (lit "BASE_TYPE_REQUIRED")
                         (lit "This field is required")]) in
  let kwargs : gmap string pyval :=
    <["url"%string := VStr (lit "https://example.test/api")]>
      (<["headers"%string := VJson (JObj [])]>
         (<["raw_body"%string := VBytes [104; 105]%N]>
            {[ "errors"%string := errors ]})) in
  exists o,
    new sample_runtime BadRequestError [] kwargs = Ok o /\
    getattr o "status" = Ok (VStatus BAD_REQUEST) /\
    status_value BAD_REQUEST = 400 /\
    getattr o "errors" = Ok errors /\
    isinstance o ClientHTTPResponseError = true.
Proof.
  intros errors kwargs.
  pose proof (fun o => client_errors_have_fixed_status sample_runtime []
                         kwargs o) as Hthm.
  destruct (Hthm (mkObj BadRequestError ∅)) as (_ & _ & _ & _ & _ & Hbuilt).
  destruct (proj2 (Hbuilt BadRequestError ltac:(simpl; tauto))) as [o Hnew].
  { split; [reflexivity|]. split.
    - intros k [<-|[<-|[<-|[]]]]; vm_compute; eauto.
    - intros k [v Hv]. subst kwargs.
      repeat (apply lookup_insert_Some in Hv as [[<- _]|[_ Hv]];
                [vm_compute; tauto|]).
      apply lookup_singleton_Some in Hv as [<- _]. vm_compute. tauto. }
  destruct (Hthm o) as (Hbad & _ & _ & _ & Hclient & _).
  destruct (Hbad Hnew) as (Hstatus & Hvalue & Herrors).
  destruct (Hclient BadRequestError ltac:(simpl; tauto) Hnew)
    as (_ & Hinst & _).
  exists o. split; [exact Hnew|]. split; [exact Hstatus|].
  split; [exact Hvalue|]. split; [exact Herrors|exact Hinst].
Defined.

(** ** Rate limit errors *)

Lemma rate_limit_kwargs_known r g w m t l p k :
  is_Some (rate_limit_kwargs r g w m t l p !! k) ->
  has_param [("route", None); ("is_global", None); ("retry_after", None);
             ("max_retry_after", None); ("reset_at", None);
             ("limit", None); ("period", None)]%string k = true.
Proof.
  unfold rate_limit_kwargs. intros [v Hv].
  repeat (apply lookup_insert_Some in Hv as [[<- _]|[_ Hv]]; [reflexivity|]).
  rewrite lookup_empty in Hv. discriminate.
Qed.

Lemma rate_limit_message_names rt m r g :
  occurs_in (py_str rt m) (rate_limit_message rt m r g) /\
  occurs_in (py_str rt r) (rate_limit_message rt m r g) /\
  occurs_in (lit "is_global=" ++ py_str rt g) (rate_limit_message rt m r g).
Proof.
  unfold rate_limit_message, occurs_in. split; [|split].
  - exists (lit "The request has been rejected, as you would be waiting for more than "
            ++ lit "the max retry-after ("),
           (lit ") on route '" ++ py_str rt r ++ lit "' "
            ++ lit "[is_global=" ++ py_str rt g ++ lit "]").
    by rewrite <- !app_assoc.
  - exists (lit "The request has been rejected, as you would be waiting for more than "
            ++ lit "the max retry-after (" ++ py_str rt m ++ lit ") on route '"),
           (lit "' " ++ lit "[is_global=" ++ py_str rt g ++ lit "]").
    by rewrite <- !app_assoc.
  - exists (lit "The request has been rejected, as you would be waiting for more than "
            ++ lit "the max retry-after (" ++ py_str rt m ++ lit ") on route '"
            ++ py_str rt r ++ lit "' " ++ lit "["),
           (lit "]").
    rewrite <- !app_assoc. reflexivity.
Qed.

(** C5. A [RateLimitTooLongError] built from route [r], is_global [g],
    retry_after [w], max_retry_after [m], reset_at [t], limit [l] and
    period [p] has exactly these as its attributes of the same names, and
    [str] of it is its message, in which [m], [r] and [g] appear. *)
Theorem rate_limit_error_carries_arguments (rt : runtime)
    (r g w m t l p : pyval) :
  exists o msg,
    new rt RateLimitTooLongError [] (rate_limit_kwargs r g w m t l p) = Ok o /\
    getattr o "route" = Ok r /\
    getattr o "is_global" = Ok g /\
    getattr o "retry_after" = Ok w /\
    getattr o "max_retry_after" = Ok m /\
    getattr o "reset_at" = Ok t /\
    getattr o "limit" = Ok l /\
    getattr o "period" = Ok p /\
    getattr o "message" = Ok (VStr msg) /\
    RateLimitTooLongError__str__ o = Ok msg /\
    msg = rate_limit_message rt m r g /\
    occurs_in (py_str rt m) msg /\
    occurs_in (py_str rt r) msg /\
    occurs_in (lit "is_global=" ++ py_str rt g) msg.
Proof.
  exists (mkObj RateLimitTooLongError
            (<["period"%string := p]> (<["limit"%string := l]>
             (<["reset_at"%string := t]> (<["max_retry_after"%string := m]>
             (<["retry_after"%string := w]> (<["is_global"%string := g]>
             (<["route"%string := r]>
             (<["message"%string := VStr (rate_limit_message rt m r g)]> ∅))))))))),
         (rate_limit_message rt m r g).
  split.
  - unfold new, RateLimitTooLongError__init__.
    rewrite (bind_kwonly_known _ _ (rate_limit_kwargs_known r g w m t l p)).
    unfold rate_limit_kwargs. simpl bind_params.
    repeat (rewrite lookup_insert_eq || rewrite lookup_insert_ne by done).
    simpl. rewrite HTTPError__init__message. simpl.
    unfold setattr, arg; simpl.
    repeat (rewrite lookup_insert_eq || rewrite lookup_insert_ne by done).
    reflexivity.
  - repeat (split; [by lookups|]). apply rate_limit_message_names.
Qed.

(** C9. [remaining] is 0 on every [RateLimitTooLongError], whatever it
    was built from. *)
Theorem remaining_is_zero (self : obj) : remaining self = Ok (VInt 0).
Proof. reflexivity. Qed.

(** ** Gateway errors *)

Lemma closed_kwargs_known s c b k :
  is_Some (closed_kwargs s c b !! k) ->
  has_param [("reason", None); ("code", None); ("can_reconnect", None)]%string k
  = true.
Proof.
  unfold closed_kwargs. intros [v Hv].
  repeat (apply lookup_insert_Some in Hv as [[<- _]|[_ Hv]]; [reflexivity|]).
  rewrite lookup_empty in Hv. discriminate.
Qed.

Lemma GatewayError__init__reason self v :
  GatewayError__init__ self [] {[ "reason"%string := v ]}
  = Ok (setattr self "reason" v).
Proof.
  unfold GatewayError__init__, reason__init__.
  rewrite (bind_kwonly_known _ _ (singleton_known _ _ _)).
  simpl. rewrite lookup_singleton_eq. simpl. unfold arg.
  by rewrite lookup_insert_eq.
Qed.

(** C6. [GatewayServerClosedConnectionError(reason=s, code=c,
    can_reconnect=b)] keeps [s], [c] and [b] readable as [reason], [code]
    and [can_reconnect], and [str] of it is
    "Server closed connection with code {c} ({s})". The shard, as the
    spec and the docstring of [can_reconnect] describe it, answers such an
    error by a reconnect when the flag is true and by propagating the
    error when it is false: an error built with [can_reconnect=False] is
    propagated, whether a session is held or not, and never leads to a
    reconnect. *)
Theorem server_closed_error_carries_arguments (rt : runtime) (s c b : pyval) :
  exists o,
    new rt GatewayServerClosedConnectionError [] (closed_kwargs s c b) = Ok o /\
    getattr o "reason" = Ok s /\
    getattr o "code" = Ok c /\
    getattr o "can_reconnect" = Ok b /\
    GatewayServerClosedConnectionError__str__ rt o =
      Ok (lit "Server closed connection with code " ++ py_str rt c
          ++ lit " (" ++ py_str rt s ++ lit ")") /\
    (forall session_held,
       Shard.on_server_close o session_held
       = Ok (if truthy b then Shard.Reconnect session_held
             else Shard.Propagate o)) /\
    (b = VBool false ->
       forall session_held resume,
         Shard.on_server_close o session_held = Ok (Shard.Propagate o) /\
         Shard.on_server_close o session_held <> Ok (Shard.Reconnect resume)).
Proof.
  exists (mkObj GatewayServerClosedConnectionError
            (<["can_reconnect"%string := b]> (<["code"%string := c]>
             (<["reason"%string := s]> ∅)))).
  split.
  - unfold new, GatewayServerClosedConnectionError__init__.
    rewrite (bind_kwonly_known _ _ (closed_kwargs_known s c b)).
    unfold closed_kwargs. simpl bind_params.
    repeat (rewrite lookup_insert_eq || rewrite lookup_insert_ne by done).
    simpl. rewrite GatewayError__init__reason. simpl.
    unfold setattr, arg; simpl.
    repeat (rewrite lookup_insert_eq || rewrite lookup_insert_ne by done).
    reflexivity.
  - do 4 (split; [by lookups|]).
    assert (forall session_held,
              Shard.on_server_close
                (mkObj GatewayServerClosedConnectionError
                   (<["can_reconnect"%string := b]> (<["code"%string := c]>
                    (<["reason"%string := s]> ∅)))) session_held
              = Ok (if truthy b then Shard.Reconnect session_held
                    else Shard.Propagate
                           (mkObj GatewayServerClosedConnectionError
                              (<["can_reconnect"%string := b]>
                               (<["code"%string := c]>
                                (<["reason"%string := s]> ∅)))))) as Hclose.
    { intros session_held. unfold Shard.on_server_close. by lookups. }
    split; [exact Hclose|].
    intros -> session_held resume. rewrite Hclose. simpl.
    split; [reflexivity|]. intros H. discriminate H.
Qed.

Lemma server_closed_error_carries_arguments_witness :
  exists o,
    new sample_runtime GatewayServerClosedConnectionError []
      (closed_kwargs (VStr (lit "Authentication failed"))
         (VCloseCode AUTHENTICATION_FAILED) (VBool false)) = Ok o /\
    GatewayServerClosedConnectionError__str__ sample_runtime o =
      Ok (lit "Server closed connection with code AUTHENTICATION_FAILED (Authentication failed)") /\
    Shard.on_server_close o true = Ok (Shard.Propagate o).
Proof.
  destruct (server_closed_error_carries_arguments sample_runtime
              (VStr (lit "Authentication failed"))
              (VCloseCode AUTHENTICATION_FAILED) (VBool false))
    as (o & Hnew & _ & _ & _ & Hstr & _ & Hflag).
  exists o. split; [exact Hnew|]. split; [exact Hstr|].
  apply (Hflag eq_refl true true).
Defined.

(** ** Missing intents *)

(** C8 (what the code does). [MissingIntentError(intents=i)] stores [i]
    under [deleted_messages]; the instance has no [intents] attribute, so
    reading it and taking [str] of the error both raise
    [AttributeError]. *)
Theorem missing_intent_error_loses_intents (rt : runtime) (api : intents_api)
    (i : pyval) :
  exists o,
    new rt MissingIntentError [] {[ "intents"%string := i ]} = Ok o /\
    getattr o "deleted_messages" = Ok i /\
    getattr o "intents" = raise AttributeError /\
    MissingIntentError__str__ rt api o = raise AttributeError.
Proof.
  exists (mkObj MissingIntentError {[ "deleted_messages"%string := i ]}).
  split.
  - unfold new, MissingIntentError__init__.
    rewrite (bind_kwonly_known _ _ (singleton_known _ _ _)).
    simpl. rewrite lookup_singleton_eq. simpl. unfold setattr, arg; simpl.
    rewrite lookup_insert_eq. reflexivity.
  - unfold MissingIntentError__str__. repeat split; by lookups.
Qed.

(** ** The text of an HTTP response error *)

Lemma HTTPResponseError__init__attrs self args kwargs o :
  HTTPResponseError__init__ self args kwargs = Ok o ->
  getattr o "status" = Ok (default VNone (kwargs !! "status"%string)) /\
  getattr o "url" = Ok (default VNone (kwargs !! "url"%string)) /\
  getattr o "raw_body" = Ok (default VNone (kwargs !! "raw_body"%string)) /\
  getattr o "code" = Ok (default (VInt 0) (kwargs !! "code"%string)) /\
  getattr o "message" = Ok (default (VStr []) (kwargs !! "message"%string)).
Proof.
  unfold HTTPResponseError__init__.
  destruct (bind_kwonly _ args kwargs) as [b|e] eqn:Hb; simpl; [|discriminate].
  rewrite HTTPError__init__message. simpl. intros [= <-].
  apply bind_kwonly_inv in Hb as (_ & _ & Hb).
  pose proof (arg_bound _ _ _ "status" None Hb eq_refl) as H1.
  pose proof (arg_bound _ _ _ "url" None Hb eq_refl) as H2.
  pose proof (arg_bound _ _ _ "raw_body" None Hb eq_refl) as H3.
  pose proof (arg_bound _ _ _ "code" (Some (VInt 0)) Hb eq_refl) as H4.
  pose proof (arg_bound _ _ _ "message" (Some (VStr [])) Hb eq_refl) as H5.
  simpl in H1, H2, H3, H4, H5. rewrite <- H1, <- H2, <- H3, <- H4, <- H5.
  repeat split; by rewrite ?getattr_setattr_ne, ?getattr_setattr_eq by done.
Qed.

Lemma HTTPResponseError__str__no_message rt o status url raw_body code message :
  getattr o "status" = Ok status ->
  getattr o "url" = Ok url ->
  getattr o "raw_body" = Ok raw_body ->
  getattr o "code" = Ok code ->
  getattr o "message" = Ok message ->
  truthy message = false ->
  exists head,
    HTTPResponseError__str__ rt o =
      Ok (head ++ lit " '" ++ slice_to 200 (render_body rt raw_body)
          ++ (if (200 <? length (render_body rt raw_body))%nat
              then lit "..." else lit "")
          ++ lit "' for " ++ py_str rt url).
Proof.
  intros Hst Hurl Hraw Hcode Hmsg Hfalsy.
  unfold HTTPResponseError__str__.
  rewrite Hst. cbn [mbind result_bind]. rewrite Hcode. cbn [mbind result_bind].
  rewrite Hmsg. cbn [mbind result_bind]. rewrite Hfalsy, Hraw.
  cbn [mbind result_bind]. rewrite Hurl. cbn [mbind result_bind].
  match goal with
  | |- exists head, Ok (?nv ++ ?colon ++ ?cs ++ ?rest) = _ =>
      exists (nv ++ colon ++ cs)
  end.
  by rewrite <- !app_assoc.
Qed.

Lemma with_status_lookup st b :
  with_status st b !! "url"%string = Some (arg b "url") /\
  with_status st b !! "raw_body"%string = Some (arg b "raw_body") /\
  with_status st b !! "message"%string = Some (arg b "message").
Proof.
  unfold with_status.
  repeat split;
    by repeat (rewrite lookup_insert_eq || rewrite lookup_insert_ne by done).
Qed.

Lemma status_error__init__attrs st self args kwargs o :
  status_error__init__ st self args kwargs = Ok o ->
  getattr o "url" = Ok (default VNone (kwargs !! "url"%string)) /\
  getattr o "raw_body" = Ok (default VNone (kwargs !! "raw_body"%string)) /\
  getattr o "message" = Ok (default (VStr []) (kwargs !! "message"%string)) /\
  (exists status, getattr o "status" = Ok status) /\
  (exists code, getattr o "code" = Ok code).
Proof.
  unfold status_error__init__.
  destruct (bind_kwonly _ args kwargs) as [b|e] eqn:Hb; simpl; [|discriminate].
  intros Ho. apply HTTPResponseError__init__attrs in Ho
    as (Hst & Hurl & Hraw & Hcode & Hmsg).
  destruct (with_status_lookup st b) as (E1 & E2 & E3).
  rewrite E1 in Hurl. rewrite E2 in Hraw. rewrite E3 in Hmsg.
  apply bind_kwonly_inv in Hb as (_ & _ & Hb).
  pose proof (arg_bound _ _ _ "url" None Hb eq_refl) as H2.
  pose proof (arg_bound _ _ _ "raw_body" None Hb eq_refl) as H3.
  pose proof (arg_bound _ _ _ "message" (Some (VStr [])) Hb eq_refl) as H5.
  simpl in *. rewrite <- H2, <- H3, <- H5. eauto 10.
Qed.

Lemma BadRequestError__init__attrs self args kwargs o :
  BadRequestError__init__ self args kwargs = Ok o ->
  getattr o "url" = Ok (default VNone (kwargs !! "url"%string)) /\
  getattr o "raw_body" = Ok (default VNone (kwargs !! "raw_body"%string)) /\
  getattr o "message" = Ok (default (VStr []) (kwargs !! "message"%string)) /\
  (exists status, getattr o "status" = Ok status) /\
  (exists code, getattr o "code" = Ok code).
Proof.
  unfold BadRequestError__init__.
  destruct (bind_kwonly _ args kwargs) as [b|e] eqn:Hb; simpl; [|discriminate].
  destruct (HTTPResponseError__init__ _ _ _) as [o'|e] eqn:Ho; simpl;
    [|discriminate].
  intros [= <-]. apply HTTPResponseError__init__attrs in Ho
    as (Hst & Hurl & Hraw & Hcode & Hmsg).
  destruct (with_status_lookup BAD_REQUEST b) as (E1 & E2 & E3).
  rewrite E1 in Hurl. rewrite E2 in Hraw. rewrite E3 in Hmsg.
  apply bind_kwonly_inv in Hb as (_ & _ & Hb).
  pose proof (arg_bound _ _ _ "url" None Hb eq_refl) as H2.
  pose proof (arg_bound _ _ _ "raw_body" None Hb eq_refl) as H3.
  pose proof (arg_bound _ _ _ "message" (Some (VStr [])) Hb eq_refl) as H5.
  simpl in H2, H3, H5. rewrite <- H2, <- H3, <- H5.
  rewrite !getattr_setattr_ne by done. eauto 10.
Qed.

(** C10. For an [HTTPResponseError] (of any of its classes) built
    without a message, or with an empty or otherwise false one, the text
    that [HTTPResponseError.__str__] returns quotes the first 200
    characters of the rendered body and no more, followed by "..."
    exactly when the rendered body is longer than 200 characters, and then
    by the URL. *)
Theorem response_error_text_shows_200_of_body (rt : runtime) (c : class)
    (args : list pyval) (kwargs : gmap string pyval) (o : obj) :
  In c [HTTPResponseError; ClientHTTPResponseError; InternalServerError;
        BadRequestError; UnauthorizedError; ForbiddenError; NotFoundError] ->
  new rt c args kwargs = Ok o ->
  truthy (default (VStr []) (kwargs !! "message"%string)) = false ->
  let body := render_body rt (default VNone (kwargs !! "raw_body"%string)) in
  let url := py_str rt (default VNone (kwargs !! "url"%string)) in
  exists head shown dots,
    HTTPResponseError__str__ rt o =
      Ok (head ++ lit " '" ++ shown ++ dots ++ lit "' for " ++ url) /\
    shown = firstn 200 body /\
    (length shown <= 200)%nat /\
    ((200 < length body)%nat -> dots = lit "...") /\
    ((length body <= 200)%nat -> dots = lit "" /\ shown = body).
Proof.
  intros Hc Hnew Hfalsy body url.
  assert (getattr o "url" = Ok (default VNone (kwargs !! "url"%string)) /\
          getattr o "raw_body" = Ok (default VNone (kwargs !! "raw_body"%string)) /\
          getattr o "message" = Ok (default (VStr []) (kwargs !! "message"%string)) /\
          (exists status, getattr o "status" = Ok status) /\
          (exists code, getattr o "code" = Ok code)) as Hattrs.
  { simpl in Hc.
    destruct Hc as [<-|[<-|[<-|[<-|[<-|[<-|[<-|[]]]]]]]]; simpl in Hnew;
      try (apply HTTPResponseError__init__attrs in Hnew
             as (? & ? & ? & ? & ?); by eauto 10);
      try (by apply status_error__init__attrs in Hnew).
    by apply BadRequestError__init__attrs in Hnew. }
  destruct Hattrs as (Hurl & Hraw & Hmsg & [status Hst] & [code Hcode]).
  destruct (HTTPResponseError__str__no_message rt o _ _ _ _ _
              Hst Hurl Hraw Hcode Hmsg Hfalsy) as [head Hstr].
  exists head, (firstn 200 body),
    (if (200 <? length body)%nat then lit "..." else lit "").
  split; [exact Hstr|]. split; [done|].
  split; [rewrite length_take; lia|]. split.
  - intros Hlong. apply Nat.ltb_lt in Hlong. by rewrite Hlong.
  - intros Hshort. split.
    + apply Nat.ltb_ge in Hshort. by rewrite Hshort.
    + by apply firstn_all2.
Qed.

Lemma response_error_text_shows_200_of_body_witness :
  let kwargs : gmap string pyval :=
    <["url"%string := VStr (lit "https://example.test/api")]>
      (<["headers"%string := VJson (JObj [])]>
         {[ "raw_body"%string := VBytes (repeat 120%N 250) ]}) in
  exists o head shown dots,
    new sample_runtime NotFoundError [] kwargs = Ok o /\
    HTTPResponseError__str__ sample_runtime o =
      Ok (head ++ lit " '" ++ shown ++ dots ++ lit "' for "
          ++ lit "https://example.test/api") /\
    shown = repeat 120%N 200 /\ dots = lit "...".
Proof.
  intros kwargs.
  destruct (new sample_runtime NotFoundError [] kwargs) as [o|e] eqn:Hnew;
    [|vm_compute in Hnew; discriminate].
  destruct (response_error_text_shows_200_of_body sample_runtime NotFoundError
              [] kwargs o ltac:(simpl; tauto) Hnew eq_refl)
    as (head & shown & dots & Hstr & Hshown & _ & Hlong & _).
  exists o, head, shown, dots. split; [reflexivity|].
  split; [exact Hstr|]. split.
  - rewrite Hshown. vm_compute. reflexivity.
  - apply Hlong. vm_compute. lia.
Defined.

(** ** Interrupt handling *)

(** Positional arguments never bind to [HikariInterrupt.__init__]. *)
Lemma HikariInterrupt_positional rt (a : pyval) (rest : list pyval) kwargs :
  new rt HikariInterrupt (a :: rest) kwargs = raise TypeError.
Proof. reflexivity. Qed.

(** The handler raises before it assigns [interrupt] or reaches the
    callback: the state is left as it was. *)
Lemma interrupt_handler_raises pf rt signum st :
  exists e, interrupt_handler pf rt signum st = (Raise e, st) /\
            (cls e = TypeError \/ cls e = AssertionError).
Proof.
  unfold interrupt_handler. destruct (strsignal pf signum) as [signame|].
  - rewrite HikariInterrupt_positional. eexists; split; [reflexivity|]. by left.
  - eexists; split; [reflexivity|]. by right.
Qed.

Lemma run_code_state pf rt c st : snd (run_code pf rt c st) = st.
Proof.
  induction c as [| e | signum k IHk h IHh]; simpl; try done.
  destruct (handlers st !! signum) as [[|]|]; try done.
  destruct (interrupt_handler_raises pf rt signum st) as (e & -> & _).
  apply IHh.
Qed.

Lemma install_keeps pf d sigs st r st' :
  install pf d sigs st = (r, st') ->
  interrupt st' = interrupt st /\
  exit_callback_called st' = exit_callback_called st /\
  events st' = events st.
Proof.
  revert st. induction sigs as [|sig rest IH]; intros st; simpl.
  - by intros [= _ <-].
  - destruct (signal_number pf sig) as [n|]; [|apply IH].
    destruct (in_main_thread pf); [|by intros [= _ <-]].
    intros H. by apply IH in H.
Qed.

Lemma run_code_eq pf rt c st :
  run_code pf rt c st = (fst (run_code pf rt c st), st).
Proof.
  rewrite <- (run_code_state pf rt c st) at 3. apply surjective_pairing.
Qed.

Lemma armed_keeps pf :
  interrupt (snd (armed pf)) = None /\
  exit_callback_called (snd (armed pf)) = false /\
  events (snd (armed pf)) = [].
Proof.
  unfold armed.
  destruct (install pf Handler _INTERRUPT_SIGNALS initial) as [r st] eqn:E.
  by apply install_keeps in E.
Qed.

Lemma finally_clause_keeps pf o st :
  events (snd (finally_clause pf o st)) = events st.
Proof.
  unfold finally_clause. destruct o; try done;
    destruct (install pf SIG_DFL _INTERRUPT_SIGNALS st) as [[|] st'] eqn:E;
    apply install_keeps in E as (_ & _ & E); simpl;
    try destruct (interrupt st'); done.
Qed.

Lemma install_result pf d d' sigs st st' :
  fst (install pf d sigs st) = fst (install pf d' sigs st').
Proof.
  revert st st'. induction sigs as [|sig rest IH]; intros st st'; simpl.
  - done.
  - destruct (signal_number pf sig) as [n|]; [|apply IH].
    destruct (in_main_thread pf); [apply IH|done].
Qed.

(** When the handlers could be installed, the [finally] clause installs
    the defaults as well, and with no interrupt recorded it lets the body's
    outcome through. *)
Lemma finally_clause_after_armed pf o st :
  fst (armed pf) = Ok () -> interrupt st = None ->
  fst (finally_clause pf o st) = o.
Proof.
  intros Harmed Hint. unfold finally_clause.
  destruct (install pf SIG_DFL _INTERRUPT_SIGNALS st) as [r st'] eqn:Hfin.
  pose proof (install_result pf SIG_DFL Handler _INTERRUPT_SIGNALS st initial)
    as Hsame.
  fold (armed pf) in Hsame. rewrite Hfin, Harmed in Hsame. simpl in Hsame.
  subst r. apply install_keeps in Hfin as (Hi & _). rewrite Hi, Hint.
  by destruct o.
Qed.

(** C2, amended. With interrupts enabled and the handlers installed,
    when the body raises an instance of [Exception] the exit callback is
    called: when the callback returns, it has run to completion before
    that same exception leaves the context manager, and when the callback
    itself raises, its exception leaves in place of the body's, the
    callback not having completed. In a use of the context manager during
    which no signal arrives, however the body and the callback end, the
    exit callback is called at most once. (What a signal does is left
    out: that is C1.) *)
Theorem exit_callback_completes_before_exception_and_runs_once
    (pf : platform) (rt : runtime) (enabled : option bool)
    (exit_callback body : code) :
  signal_free body = true ->
  signal_free exit_callback = true ->
  (invocations (snd (handle_interrupts pf rt enabled exit_callback body)) <= 1)%nat
  /\
  forall e,
    resolve_enabled pf enabled = true ->
    fst (armed pf) = Ok () ->
    body = Raises e ->
    isinstance e Exception = true ->
    (exit_callback = Returns ->
       fst (handle_interrupts pf rt enabled exit_callback body) = Raised e /\
       events (snd (handle_interrupts pf rt enabled exit_callback body))
       = [Invoked; Completed]) /\
    (forall e',
       exit_callback = Raises e' ->
       fst (handle_interrupts pf rt enabled exit_callback body) = Raised e' /\
       events (snd (handle_interrupts pf rt enabled exit_callback body))
       = [Invoked]).
Proof.
  intros Hbody Hcb.
  destruct (armed_keeps pf) as (Hint & Hcalled & Hev).
  split.
  - unfold handle_interrupts.
    destruct (negb (resolve_enabled pf enabled)).
    { destruct body; try discriminate Hbody; unfold invocations; simpl; lia. }
    destruct (armed pf) as [[[]|e0] st1]; simpl in Hint, Hcalled, Hev;
      [|unfold invocations; simpl; rewrite Hev; simpl; lia].
    destruct body as [|e|]; try discriminate Hbody; cbn [run_code].
    + cbn [except_clause]. unfold invocations.
      rewrite finally_clause_keeps, Hev. simpl. lia.
    + unfold except_clause. destruct (isinstance e Exception);
        [|unfold invocations; rewrite finally_clause_keeps, Hev; simpl; lia].
      rewrite Hcalled. cbn [negb].
      destruct exit_callback as [|e'|]; try discriminate Hcb; cbn [run_code];
        unfold invocations; rewrite finally_clause_keeps; simpl;
        rewrite Hev; simpl; lia.
  - intros e Hen Harmed -> Hexc.
    unfold handle_interrupts. rewrite Hen. cbn [negb].
    destruct (armed pf) as [r st1] eqn:Harm.
    simpl in Harmed, Hint, Hcalled, Hev. subst r.
    cbn [run_code]. unfold except_clause. rewrite Hexc, Hcalled. cbn [negb].
    assert (fst (armed pf) = Ok ()) as Harmed by (by rewrite Harm).
    split.
    + intros ->. cbn [run_code]. split.
      * by apply finally_clause_after_armed.
      * rewrite finally_clause_keeps. simpl. by rewrite Hev.
    + intros e' ->. cbn [run_code]. split.
      * by apply finally_clause_after_armed.
      * rewrite finally_clause_keeps. simpl. by rewrite Hev.
Qed.

Lemma exit_callback_completes_before_exception_and_runs_once_witness :
  let body := Raises (mkObj ValueError ∅) in
  fst (handle_interrupts posix sample_runtime (Some true) Returns body)
  = Raised (mkObj ValueError ∅) /\
  events (snd (handle_interrupts posix sample_runtime (Some true) Returns body))
  = [Invoked; Completed].
Proof.
  intros body.
  apply (proj1 (proj2 (exit_callback_completes_before_exception_and_runs_once
                         posix sample_runtime (Some true) Returns body
                         eq_refl eq_refl)
                  (mkObj ValueError ∅) eq_refl eq_refl eq_refl eq_refl)).
  reflexivity.
Defined.

(** C2 as stated fails for an exception outside [Exception]: the
    [except Exception] clause does not catch a [KeyboardInterrupt] raised
    by the body, which leaves the context manager without the exit
    callback having been called. *)
Lemma exit_callback_skipped_for_base_exception :
  let body := Raises (mkObj KeyboardInterrupt ∅) in
  let run := handle_interrupts posix sample_runtime (Some true) Returns body in
  fst (run_code posix sample_runtime body (snd (armed posix)))
    = Raised (mkObj KeyboardInterrupt ∅) /\
  fst run = Raised (mkObj KeyboardInterrupt ∅) /\
  ~ In Completed (events (snd run)) /\
  invocations (snd run) = 0%nat.
Proof.
  repeat split; try (vm_compute; reflexivity).
  vm_compute. tauto.
Qed.

(** C1 (what the code does). The handler calls
    [errors.HikariInterrupt(signum, signame)] with positional arguments,
    which the keyword-only [__init__] rejects: for every signal the
    handler raises ([TypeError], or [AssertionError] when the signal has no
    name) and leaves [interrupt] unset. On a POSIX platform a SIGINT
    during the body therefore surfaces as a [TypeError], and no
    [HikariInterrupt] is raised when the body completes normally after a
    SIGTERM whose handler error it swallowed. *)
Theorem interrupt_is_never_recorded :
  (forall pf rt signum st,
     exists e, interrupt_handler pf rt signum st = (Raise e, st) /\
               (cls e = TypeError \/ cls e = AssertionError)) /\
  handle_interrupts posix sample_runtime (Some true) Returns
    (Signal 2 Returns Raises)
  = (Raised (mkObj TypeError ∅),
     mkState (<[15 := SIG_DFL]> (<[2 := SIG_DFL]>
                (<[15 := Handler]> (<[2 := Handler]> ∅))))
             None true [Invoked; Completed]) /\
  fst (handle_interrupts posix sample_runtime (Some true) Returns
         (Signal 15 Returns (fun _ => Returns))) = Returned.
Proof.
  split; [apply interrupt_handler_raises|].
  split; [|vm_compute; reflexivity].
  unfold handle_interrupts, armed. simpl.
  unfold set_handler, initial. simpl.
  rewrite lookup_insert_ne by done. rewrite lookup_insert_eq.
  reflexivity.
Qed.

(** ** The per-bucket gate *)

Module RateLimiterFacts.
Import RateLimiter.

(** One request: the bucket it sees and what it leaves. *)
Lemma acquire_cases now b :
  let b1 := if expired now b then replenish now b else b in
  (remaining_budget b1 = O /\ acquire now b = (Rejected (reset_at b1 - now), b1)) \/
  (exists r, remaining_budget b1 = S r /\
     acquire now b
     = (Ticket, mkBucket (capacity b1) r (reset_at b1) (reset_after b1))).
Proof.
  intros b1. unfold acquire. fold b1.
  destruct (remaining_budget b1) as [|r]; [left|right]; eauto.
Qed.

(** What a request keeps and changes in the bucket. *)
Lemma acquire_bucket now b :
  let b' := snd (acquire now b) in
  capacity b' = capacity b /\ reset_after b' = reset_after b /\
  (if expired now b
   then reset_at b' = now + reset_after b /\
        (remaining_budget b' <= capacity b)%nat
   else reset_at b' = reset_at b /\
        (remaining_budget b' <= remaining_budget b)%nat).
Proof.
  unfold acquire, replenish.
  destruct (expired now b); simpl; destruct b as [c [|r] ra rf]; simpl;
    try destruct c; simpl; repeat split; lia.
Qed.

Lemma simulate_cons b now rest :
  simulate b (now :: rest)
  = (now, match fst (acquire now b) with Ticket => true | Rejected _ => false end)
    :: simulate (snd (acquire now b)) rest.
Proof. simpl. by destruct (acquire now b) as [[|w] b']. Qed.

Lemma admitted_between_cons lo hi t ok log :
  admitted_between lo hi ((t, ok) :: log)
  = ((if ok && (lo <=? t)%Z && (t <? hi)%Z then 1 else 0)
     + admitted_between lo hi log)%nat.
Proof. unfold admitted_between. simpl. by destruct (ok && _ && _). Qed.

(** No request is counted in a window that ended before the clock. *)
Lemma admitted_between_past lo hi b clock :
  Forall (fun t => hi <= t) clock ->
  admitted_between lo hi (simulate b clock) = 0%nat.
Proof.
  revert b. induction clock as [|now rest IH]; intros b Hall; [done|].
  inversion Hall as [|? ? Hnow Hrest]; subst.
  rewrite simulate_cons, admitted_between_cons, (IH _ Hrest).
  destruct (Z.ltb_spec now hi); [lia|]. by rewrite andb_false_r.
Qed.

(** The window that is current admits no more than the budget that is
    left. *)
Lemma admitted_in_current_window b clock :
  StronglySorted Z.le clock ->
  (admitted_between (reset_at b - reset_after b) (reset_at b) (simulate b clock)
   <= remaining_budget b)%nat.
Proof.
  intros Hsorted. revert b.
  induction Hsorted as [|now rest Hrest IH Hnow]; intros b.
  { unfold admitted_between. simpl. lia. }
  rewrite simulate_cons, admitted_between_cons.
  pose proof (acquire_bucket now b) as (_ & Hra & Hb').
  unfold expired in Hb'. destruct (Z.leb_spec (reset_at b) now) as [Hexp|Hlive].
  - rewrite admitted_between_past.
    + destruct (Z.ltb_spec now (reset_at b)); [lia|].
      rewrite andb_false_r. lia.
    + eapply Forall_impl; [exact Hnow|]. simpl. intros; lia.
  - destruct Hb' as [Hat Hrem].
    specialize (IH (snd (acquire now b))). rewrite Hat, Hra in IH.
    destruct (acquire_cases now b) as [[H0 Hacq]|(r & Hr & Hacq)];
      unfold expired in *;
      destruct (Z.leb_spec (reset_at b) now); try lia;
      rewrite Hacq in IH |- *; simpl in *.
    + lia.
    + destruct (_ && _); lia.
Qed.

(** A later reset time is at least one window away. *)
Lemma reset_times_apart b clock r :
  0 <= reset_after b ->
  In r (reset_times b clock) ->
  r = reset_at b \/ reset_at b + reset_after b <= r.
Proof.
  intros Hra. revert b Hra.
  induction clock as [|now rest IH]; intros b Hra; simpl.
  - intros [<-|[]]. by left.
  - intros [<-|Hin]; [by left|].
    pose proof (acquire_bucket now b) as (_ & Hra' & Hb').
    apply IH in Hin; [|lia]. rewrite Hra' in Hin.
    unfold expired in Hb'. destruct (Z.leb_spec (reset_at b) now).
    + destruct Hb' as [Hat _]. lia.
    + destruct Hb' as [Hat _]. lia.
Qed.

Lemma reset_times_head b clock : In (reset_at b) (reset_times b clock).
Proof. destruct clock; simpl; by left. Qed.

Lemma per_window b clock r :
  (remaining_budget b <= capacity b)%nat ->
  0 < reset_after b ->
  StronglySorted Z.le clock ->
  In r (reset_times b clock) ->
  (admitted_between (r - reset_after b) r (simulate b clock) <= capacity b)%nat.
Proof.
  intros Hb Hra Hsorted. revert b Hb Hra.
  induction Hsorted as [|now rest Hrest IH Hnow]; intros b Hb Hra Hin.
  { unfold admitted_between. simpl. lia. }
  destruct (Z.eq_dec r (reset_at b)) as [->|Hne].
  { pose proof (admitted_in_current_window b (now :: rest)
                  ltac:(by constructor)). lia. }
  simpl in Hin. destruct Hin as [Hin|Hin]; [congruence|].
  pose proof (acquire_bucket now b) as (Hcap & Hra' & Hb').
  set (b' := snd (acquire now b)) in *.
  assert (remaining_budget b' <= capacity b')%nat as Hwf.
  { rewrite Hcap. destruct (expired now b); lia. }
  rewrite simulate_cons, admitted_between_cons. fold b'.
  pose proof (reset_times_apart b' rest r ltac:(lia) Hin) as Hapart.
  rewrite Hra' in Hapart.
  destruct (Z.eq_dec r (reset_at b')) as [Hcur|Hlater].
  - (* the window that this request opens *)
    pose proof (admitted_in_current_window b' rest Hrest) as Hcurrent.
    rewrite Hra', <- Hcur in Hcurrent.
    unfold expired in Hb'. destruct (Z.leb_spec (reset_at b) now); [|lia].
    destruct (acquire_cases now b) as [[H0 Hacq]|(k & Hk & Hacq)];
      unfold expired in *;
      destruct (Z.leb_spec (reset_at b) now); try lia;
      subst b'; rewrite Hacq in *; simpl in *.
    + lia.
    + destruct (_ && _); lia.
  - (* a window opened later *)
    specialize (IH b' Hwf ltac:(lia) Hin). rewrite Hra', Hcap in IH.
    assert (now < r - reset_after b) as Hbefore.
    { unfold expired in Hb'. destruct (Z.leb_spec (reset_at b) now); lia. }
    destruct (Z.leb_spec (r - reset_after b) now); [lia|].
    rewrite andb_false_r. simpl. lia.
Qed.

Lemma admitted_in_window b clock t :
  0 < reset_after b ->
  StronglySorted Z.le clock ->
  Forall (fun t => reset_at b - reset_after b <= t) clock ->
  In (t, true) (simulate b clock) ->
  exists r, In r (reset_times b clock) /\ r - reset_after b <= t < r.
Proof.
  intros Hra Hsorted. revert b Hra.
  induction Hsorted as [|now rest Hrest IH Hnow]; intros b Hra Hlo Hin.
  { destruct Hin. }
  inversion Hlo as [|? ? Hlo_now Hlo_rest]; subst.
  pose proof (acquire_bucket now b) as (Hcap & Hra' & Hb').
  rewrite simulate_cons in Hin. simpl reset_times.
  set (b' := snd (acquire now b)) in *.
  destruct Hin as [Hhead|Htail].
  - injection Hhead as <- Hok. exists (reset_at b'). split.
    + right. apply reset_times_head.
    + unfold expired in Hb'. destruct (Z.leb_spec (reset_at b) now); lia.
  - destruct (IH b' ltac:(lia)) with (2 := Htail) as (r & Hr & Ht).
    + rewrite Hra'. unfold expired in Hb'.
      destruct (Z.leb_spec (reset_at b) now).
      * eapply Forall_impl; [exact Hnow|]. simpl. intros; lia.
      * eapply Forall_impl; [exact Hlo_rest|]. simpl. intros; lia.
    + exists r. split; [by right|]. lia.
Qed.

Lemma windows_disjoint b clock r r' :
  0 <= reset_after b ->
  In r (reset_times b clock) -> In r' (reset_times b clock) ->
  r < r' -> r <= r' - reset_after b.
Proof.
  intros Hra. revert b Hra.
  induction clock as [|now rest IH]; intros b Hra; simpl.
  - intros [<-|[]] [<-|[]]. lia.
  - pose proof (acquire_bucket now b) as (_ & Hra' & Hb').
    set (b' := snd (acquire now b)) in *.
    assert (reset_at b' = reset_at b \/ reset_at b + reset_after b <= reset_at b')
      as Hnext.
    { unfold expired in Hb'. destruct (Z.leb_spec (reset_at b) now); lia. }
    intros [<-|Hr] [<-|Hr'] Hlt.
    + lia.
    + apply reset_times_apart in Hr'; lia.
    + apply reset_times_apart in Hr; lia.
    + specialize (IH b' ltac:(lia) Hr Hr' Hlt). lia.
Qed.

(** C7. For every sequence of requests to one bucket, made at times that
    do not go backwards and not before the bucket's first window, with a
    window of positive length and a budget that does not start above the
    capacity: the requests admitted within any one reset window number at
    most [capacity]; every admitted request falls within a reset window;
    and the reset windows do not overlap. *)
Theorem at_most_capacity_per_window (b : Bucket) (clock : list Z) :
  (remaining_budget b <= capacity b)%nat ->
  0 < reset_after b ->
  StronglySorted Z.le clock ->
  Forall (fun t => reset_at b - reset_after b <= t) clock ->
  (forall r, In r (reset_times b clock) ->
     (admitted_between (r - reset_after b) r (simulate b clock)
      <= capacity b)%nat) /\
  (forall t, In (t, true) (simulate b clock) ->
     exists r, In r (reset_times b clock) /\ r - reset_after b <= t < r) /\
  (forall r r', In r (reset_times b clock) -> In r' (reset_times b clock) ->
     r < r' -> r <= r' - reset_after b).
Proof.
  intros Hb Hra Hsorted Hlo. split; [|split].
  - intros r. by apply per_window.
  - intros t. by apply admitted_in_window.
  - intros r r'. apply windows_disjoint. lia.
Qed.

Lemma at_most_capacity_per_window_witness :
  let b := mkBucket 2 1 10 10 in
  let clock := [0; 1; 2; 11; 12; 13; 25] in
  In 21 (reset_times b clock) /\
  (admitted_between 11 21 (simulate b clock) <= 2)%nat /\
  exists r, In r (reset_times b clock) /\ r - 10 <= 25 < r.
Proof.
  intros b clock.
  assert (In 21 (reset_times b clock)) as Hin by (simpl; tauto).
  destruct (at_most_capacity_per_window b clock) as (Hbound & Hwithin & _).
  - simpl. lia.
  - simpl. lia.
  - repeat constructor; lia.
  - repeat constructor; simpl; lia.
  - split; [exact Hin|]. split.
    + apply (Hbound 21 Hin).
    + apply (Hwithin 25). simpl. tauto.
Defined.

(** The run of the example: one request fits in what is left of the first
    window, two fit in the second, the third of each is rejected, and the
    last opens a third window. *)
Example simulate_example :
  let b := mkBucket 2 1 10 10 in
  let clock := [0; 1; 2; 11; 12; 13; 25] in
  simulate b clock
  = [(0, true); (1, false); (2, false);
     (11, true); (12, true); (13, false); (25, true)] /\
  reset_times b clock = [10; 10; 10; 10; 21; 21; 21; 35] /\
  admitted_between 11 21 (simulate b clock) = 2%nat.
Proof. repeat split. Qed.

End RateLimiterFacts.

(** * Further properties of hikari.errors *)

(** ** Constructor signatures *)

(** X1. None of the constructors with keyword-only parameters takes a
    positional argument: calling any of these classes with one raises
    [TypeError]. *)
Theorem keyword_only_constructors_reject_positional (rt : runtime)
    (c : class) (a : pyval) (rest : list pyval) (kwargs : gmap string pyval) :
  In c [HikariInterrupt; ComponentStateConflictError; UnrecognisedEntityError;
        GatewayError; GatewayConnectionError;
        GatewayServerClosedConnectionError; HTTPError; HTTPResponseError;
        ClientHTTPResponseError; InternalServerError; BadRequestError;
        UnauthorizedError; ForbiddenError; NotFoundError;
        RateLimitTooLongError; BulkDeleteError; MissingIntentError] ->
  new rt c (a :: rest) kwargs = raise TypeError.
Proof.
  simpl. intros Hc.
  repeat (destruct Hc as [<-|Hc]; [reflexivity|]). destruct Hc.
Qed.

Lemma keyword_only_constructors_reject_positional_witness :
  new sample_runtime GatewayError [VStr (lit "boom")] ∅ = raise TypeError.
Proof.
  apply (keyword_only_constructors_reject_positional sample_runtime
           GatewayError (VStr (lit "boom")) [] ∅).
  simpl. tauto.
Defined.

(** X2. [HTTPResponseError(...)] succeeds exactly when there is no
    positional argument, [url], [status], [headers] and [raw_body] are all
    given, and no keyword other than these four, [code] and [message] is
    given. *)
Theorem HTTPResponseError_signature (rt : runtime) (args : list pyval)
    (kwargs : gmap string pyval) :
  (exists o, new rt HTTPResponseError args kwargs = Ok o) <->
  args = [] /\
  (forall k, In k ["url"; "status"; "headers"; "raw_body"]%string ->
             is_Some (kwargs !! k)) /\
  (forall k, is_Some (kwargs !! k) ->
             In k ["url"; "status"; "headers"; "raw_body"; "code";
                   "message"]%string).
Proof.
  unfold new, HTTPResponseError__init__. split.
  - intros [o Ho].
    destruct (bind_kwonly _ args kwargs) as [b|e] eqn:Hb; [|discriminate Ho].
    clear Ho. apply bind_kwonly_inv in Hb as (-> & Hknown & Hb).
    split; [done|]. split.
    + intros k [<-|[<-|[<-|[<-|[]]]]];
        (apply (bind_params_required _ _ _ _ Hb); reflexivity).
    + intros k Hk. apply Hknown in Hk. unfold has_param in Hk. simpl in Hk.
      repeat (case_bool_decide; [subst k; simpl; tauto|]).
      simpl in Hk. discriminate Hk.
  - intros (-> & Hreq & Hknown).
    destruct (bind_kwonly_total
                [("url", None); ("status", None); ("headers", None);
                 ("raw_body", None); ("code", Some (VInt 0));
                 ("message", Some (VStr []))]%string kwargs) as [b Hb].
    + intros k Hk. apply Hknown in Hk.
      destruct Hk as [<-|[<-|[<-|[<-|[<-|[<-|[]]]]]]]; reflexivity.
    + intros k Hk. apply Hreq.
      destruct Hk as [[= <-]|[[= <-]|[[= <-]|[[= <-]|[[=]|[[=]|[]]]]]]];
        simpl; tauto.
    + rewrite Hb. unfold mbind, result_bind.
      rewrite HTTPError__init__message. eauto.
Qed.

Lemma HTTPResponseError_signature_witness :
  ~ exists o,
      new sample_runtime HTTPResponseError []
        (<["url"%string := VStr (lit "https://example.test/api")]>
           (<["status"%string := VInt 520]>
              {[ "headers"%string := VJson (JObj []) ]})) = Ok o.
Proof.
  intros H.
  apply (HTTPResponseError_signature sample_runtime []) in H
    as (_ & Hreq & _).
  destruct (Hreq "raw_body"%string) as [v Hv]; [simpl; tauto|].
  vm_compute in Hv. discriminate Hv.
Defined.

(** ** Interrupts and reasons *)

Lemma interrupt_kwargs_known (n s : pyval) k :
  is_Some ((<["signum"%string := n]> {[ "signame"%string := s ]}
            : gmap string pyval) !! k) ->
  has_param [("signum", None); ("signame", None)]%string k = true.
Proof.
  intros [v Hv].
  apply lookup_insert_Some in Hv as [[<- _]|[_ Hv]]; [reflexivity|].
  apply lookup_singleton_Some in Hv as [<- _]. reflexivity.
Qed.

(** X3. Called with keywords, [HikariInterrupt(signum=n, signame=s)]
    builds an instance that reads back [n] and [s], whose text is
    "Signal {n} ({s}) received", and which is at once a
    [KeyboardInterrupt], a [HikariError] and, through the latter, an
    [Exception]. *)
Theorem interrupt_by_keywords (rt : runtime) (n s : pyval) :
  exists o,
    new rt HikariInterrupt []
      (<["signum"%string := n]> {[ "signame"%string := s ]}) = Ok o /\
    getattr o "signum" = Ok n /\
    getattr o "signame" = Ok s /\
    HikariInterrupt__str__ rt o =
      Ok (lit "Signal " ++ py_str rt n ++ lit " (" ++ py_str rt s
          ++ lit ") received") /\
    isinstance o KeyboardInterrupt = true /\
    isinstance o HikariError = true /\
    isinstance o Exception = true.
Proof.
  exists (mkObj HikariInterrupt
            (<["signame"%string := s]> (<["signum"%string := n]> ∅))).
  split.
  - unfold new, HikariInterrupt__init__.
    rewrite (bind_kwonly_known _ _ (interrupt_kwargs_known n s)).
    simpl bind_params.
    repeat (rewrite lookup_insert_eq || rewrite lookup_insert_ne by done
            || rewrite lookup_singleton_eq).
    simpl. unfold setattr, arg; simpl.
    repeat (rewrite lookup_insert_eq || rewrite lookup_insert_ne by done).
    reflexivity.
  - repeat (split; [by lookups|]). reflexivity.
Qed.



(** ** The class hierarchy *)

Lemma all_classes_complete (c : class) : In c all_classes.
Proof. destruct c; simpl; tauto. Qed.

Lemma forallb_all_classes (p : class -> bool) :
  forallb p all_classes = true -> forall c, p c = true.
Proof.
  intros H c. rewrite forallb_forall in H. apply H, all_classes_complete.
Qed.

(** X5. The hierarchy that the [class] statements build: every
    exception and warning class of [hikari.errors] (every class of the
    module but the enum [ShardCloseCode]) derives from [HikariError] or
    from [HikariWarning] and never from both; every [HikariError] is an
    [Exception];
    [HikariInterrupt] is the only [HikariError] that is a
    [KeyboardInterrupt]; no client response error is a server error; and
    [issubclass] is transitive and antisymmetric over all classes. *)
Theorem hikari_class_hierarchy :
  (forall c, In c hikari_exceptions ->
     issubclass c HikariError = negb (issubclass c HikariWarning)) /\
  (forall c, issubclass c HikariError = true -> issubclass c Exception = true) /\
  (forall c, issubclass c HikariError = true ->
     issubclass c KeyboardInterrupt = true -> c = HikariInterrupt) /\
  (forall c, issubclass c ClientHTTPResponseError = true ->
     issubclass c InternalServerError = false) /\
  (forall a b c, issubclass a b = true -> issubclass b c = true ->
     issubclass a c = true) /\
  (forall a b, issubclass a b = true -> issubclass b a = true -> a = b).
Proof.
  split; [|split; [|split; [|split; [|split]]]].
  - intros c Hc. simpl in Hc.
    repeat (destruct Hc as [<-|Hc]; [vm_compute; reflexivity|]). destruct Hc.
  - intros c. destruct c; vm_compute; congruence.
  - intros c. destruct c; vm_compute; congruence.
  - intros c. destruct c; vm_compute; congruence.
  - intros a b c Hab Hbc.
    assert (forallb (fun a => forallb (fun b => forallb (fun c =>
              implb (issubclass a b && issubclass b c) (issubclass a c))
              all_classes) all_classes) all_classes = true) as H
      by (vm_compute; reflexivity).
    pose proof (forallb_all_classes _
                  (forallb_all_classes _
                     (forallb_all_classes _ H a) b) c) as Habc.
    simpl in Habc. rewrite Hab, Hbc in Habc. exact Habc.
  - intros a b Hab Hba.
    assert (forallb (fun a => forallb (fun b =>
              implb (issubclass a b && issubclass b a) (bool_decide (a = b)))
              all_classes) all_classes = true) as H
      by (vm_compute; reflexivity).
    pose proof (forallb_all_classes _ (forallb_all_classes _ H a) b) as Hab'.
    simpl in Hab'. rewrite Hab, Hba in Hab'. simpl in Hab'.
    by apply bool_decide_eq_true in Hab'.
Qed.

Lemma hikari_class_hierarchy_witness :
  issubclass MissingIntentError ValueError = true /\
  issubclass MissingIntentError Exception = true /\
  issubclass NotFoundError InternalServerError = false.
Proof.
  destruct hikari_class_hierarchy as (_ & Hexc & _ & Hdisj & Htrans & _).
  split; [vm_compute; reflexivity|]. split.
  - apply (Htrans MissingIntentError ValueError Exception);
      vm_compute; reflexivity.
  - apply Hdisj. vm_compute; reflexivity.
Defined.

(** X6. No two members of [ShardCloseCode] share a value, so none is an
    alias of another, and a close code determines its member. *)
Theorem close_code_values_are_distinct (c d : ShardCloseCode) :
  value c = value d -> c = d.
Proof. destruct c, d; simpl; intros H; try reflexivity; discriminate H. Qed.

Lemma close_code_values_are_distinct_witness :
  value RATE_LIMITED = value RATE_LIMITED /\ RATE_LIMITED = RATE_LIMITED.
Proof.
  split; [reflexivity|].
  apply (close_code_values_are_distinct RATE_LIMITED RATE_LIMITED).
  reflexivity.
Defined.

(** ** More on the text of an HTTP response error *)

Lemma Ok_inj {A} (a b : A) : Ok a = Ok b -> a = b.
Proof. by intros [= ->]. Qed.

Lemma status_error_status (rt : runtime) (c : class) (args : list pyval)
    (kwargs : gmap string pyval) (o : obj) :
  In c [BadRequestError; UnauthorizedError; ForbiddenError; NotFoundError] ->
  new rt c args kwargs = Ok o ->
  exists st, getattr o "status" = Ok (VStatus st) /\
    title (replace_underscores (lit (status_name st))) ++ lit " "
      ++ str_int (status_value st) ++ lit ":" = status_line c.
Proof.
  intros Hc Hnew. simpl in Hc.
  destruct Hc as [<-|[<-|[<-|[<-|[]]]]]; simpl in Hnew.
  - apply BadRequestError__init__status in Hnew as (H & _).
    exists BAD_REQUEST. split; [exact H|]. vm_compute. reflexivity.
  - apply status_error__init__status in Hnew as (H & _).
    exists UNAUTHORIZED. split; [exact H|]. vm_compute. reflexivity.
  - apply status_error__init__status in Hnew as (H & _).
    exists FORBIDDEN. split; [exact H|]. vm_compute. reflexivity.
  - apply status_error__init__status in Hnew as (H & _).
    exists NOT_FOUND. split; [exact H|]. vm_compute. reflexivity.
Qed.

(** X7. The text of a [BadRequestError], [UnauthorizedError],
    [ForbiddenError] or [NotFoundError] begins with the name of its status
    in title case with spaces for underscores, the status number and a
    colon: "Bad Request 400:", "Unauthorized 401:", "Forbidden 403:",
    "Not Found 404:". *)
Theorem client_error_text_names_status (rt : runtime) (c : class)
    (args : list pyval) (kwargs : gmap string pyval) (o : obj) (s : pystr) :
  In c [BadRequestError; UnauthorizedError; ForbiddenError; NotFoundError] ->
  new rt c args kwargs = Ok o ->
  HTTPResponseError__str__ rt o = Ok s ->
  exists rest, s = status_line c ++ rest.
Proof.
  intros Hc Hnew Hstr.
  destruct (status_error_status rt c args kwargs o Hc Hnew) as (st & Hst & <-).
  unfold HTTPResponseError__str__ in Hstr.
  rewrite Hst in Hstr. cbn [mbind result_bind] in Hstr.
  destruct (getattr o "code") as [code|e]; cbn [mbind result_bind] in Hstr;
    [|discriminate Hstr].
  destruct (getattr o "message") as [message|e];
    cbn [mbind result_bind] in Hstr; [|discriminate Hstr].
  match type of Hstr with
  | (?body ≫= _) = _ => destruct body as [b|e]
  end; cbn [mbind result_bind] in Hstr; [|discriminate Hstr].
  destruct (getattr o "url") as [url|e]; cbn [mbind result_bind] in Hstr;
    [|discriminate Hstr].
  apply Ok_inj in Hstr as <-.
  eexists. rewrite <- !app_assoc. reflexivity.
Qed.

Lemma client_error_text_names_status_witness :
  let kwargs : gmap string pyval :=
    <["url"%string := VStr (lit "https://example.test/api")]>
      (<["headers"%string := VJson (JObj [])]>
         (<["raw_body"%string := VBytes [110; 111]%N]>
            {[ "message"%string := VBytes [111; 111; 112; 115]%N ]})) in
  exists o rest,
    new sample_runtime NotFoundError [] kwargs = Ok o /\
    HTTPResponseError__str__ sample_runtime o
    = Ok (lit "Not Found 404: 'b'oops'' for https://example.test/api") /\
    lit "Not Found 404: 'b'oops'' for https://example.test/api"
    = lit "Not Found 404:" ++ rest.
Proof.
  intros kwargs.
  destruct (new sample_runtime NotFoundError [] kwargs) as [o|e] eqn:Hnew;
    [|vm_compute in Hnew; discriminate Hnew].
  assert (HTTPResponseError__str__ sample_runtime o
          = Ok (lit "Not Found 404: 'b'oops'' for https://example.test/api"))
    as Hstr.
  { vm_compute in Hnew. apply Ok_inj in Hnew as <-. vm_compute. reflexivity. }
  destruct (client_error_text_names_status sample_runtime NotFoundError []
              kwargs o _ ltac:(simpl; tauto) Hnew Hstr) as [rest Hrest].
  exists o, rest. split; [reflexivity|]. split; [exact Hstr|exact Hrest].
Defined.

(** X8. When the message of an HTTP response error is a non-empty
    [str], the text quotes the first 200 characters of the message,
    followed by "..." exactly when the message is longer, and does not
    depend on the response body: [raw_body] is not read. *)
Theorem response_error_text_prefers_message (rt : runtime) (o : obj)
    (m : pystr) :
  getattr o "message" = Ok (VStr m) ->
  m <> [] ->
  (forall v, HTTPResponseError__str__ rt (setattr o "raw_body" v)
             = HTTPResponseError__str__ rt o) /\
  (forall s, HTTPResponseError__str__ rt o = Ok s ->
     exists head url,
       getattr o "url" = Ok url /\
       s = head ++ lit " '" ++ firstn 200 m
           ++ (if (200 <? length m)%nat then lit "..." else lit "")
           ++ lit "' for " ++ py_str rt url).
Proof.
  intros Hmsg Hne.
  assert (truthy (VStr m) = true) as Htruthy.
  { simpl. by rewrite bool_decide_eq_false_2. }
  split.
  - intros v. unfold HTTPResponseError__str__.
    rewrite (getattr_setattr_ne o "raw_body" v "status") by done.
    rewrite (getattr_setattr_ne o "raw_body" v "code") by done.
    rewrite (getattr_setattr_ne o "raw_body" v "message") by done.
    rewrite (getattr_setattr_ne o "raw_body" v "url") by done.
    rewrite Hmsg. cbn [mbind result_bind]. rewrite Htruthy. reflexivity.
  - intros s Hstr. unfold HTTPResponseError__str__ in Hstr.
    destruct (getattr o "status") as [status|e];
      cbn [mbind result_bind] in Hstr; [|discriminate Hstr].
    destruct (getattr o "code") as [code|e]; cbn [mbind result_bind] in Hstr;
      [|discriminate Hstr].
    rewrite Hmsg in Hstr. cbn [mbind result_bind] in Hstr.
    rewrite Htruthy in Hstr. cbn [mbind result_bind] in Hstr.
    destruct (getattr o "url") as [url|e]; cbn [mbind result_bind] in Hstr;
      [|discriminate Hstr].
    apply Ok_inj in Hstr as <-.
    match goal with
    | |- context [?nv ++ lit ":" ++ ?cs ++ lit " '" ++ _] =>
        exists (nv ++ lit ":" ++ cs), url
    end.
    split; [reflexivity|]. unfold slice_to. by rewrite <- !app_assoc.
Qed.

Lemma response_error_text_prefers_message_witness :
  let o := mkObj HTTPResponseError
             (<["message"%string := VStr (lit "Missing Access")]>
                (<["status"%string := VInt 520]>
                   (<["code"%string := VInt 50001]>
                      {[ "url"%string := VStr (lit "https://example.test") ]}))) in
  HTTPResponseError__str__ sample_runtime
    (setattr o "raw_body" (VBytes [1; 2; 3]%N))
  = HTTPResponseError__str__ sample_runtime o.
Proof.
  intros o.
  apply (response_error_text_prefers_message sample_runtime o
           (lit "Missing Access")).
  - reflexivity.
  - vm_compute. discriminate.
Defined.

(** ** The dump of the field errors *)

Lemma json_nested_ind (P : json -> Prop) :
  P JNull -> (forall b, P (JBool b)) -> (forall z, P (JNum z)) ->
  (forall s, P (JStr s)) ->
  (forall items, Forall P items -> P (JArr items)) ->
  (forall fields, Forall (fun kv => P (snd kv)) fields -> P (JObj fields)) ->
  forall j, P j.
Proof.
  intros Hnull Hbool Hnum Hstr Harr Hobj.
  fix IH 1. intros [|b|z|s|items|fields].
  - exact Hnull.
  - apply Hbool.
  - apply Hnum.
  - apply Hstr.
  - apply Harr. induction items as [|item items IHitems]; constructor.
    + apply IH.
    + exact IHitems.
  - apply Hobj. induction fields as [|[k v] fields IHfields]; constructor.
    + apply IH.
    + exact IHfields.
Qed.

Lemma dump_fields_app rt rec p f1 f2 acc :
  dump_fields rt rec p (f1 ++ f2) acc =
  match dump_fields rt rec p f1 acc with
  | Dumped s => dump_fields rt rec p f2 s
  | DumpFails f => DumpFails f
  end.
Proof.
  revert acc. induction f1 as [|[key value] f1 IH]; intros acc; simpl.
  - reflexivity.
  - destruct value as [|b|z|[|c s]|items|fields]; try reflexivity;
      try (destruct (rec _ _); [apply IH|reflexivity]).
    + apply IH.
    + destruct (dump_items rt items); [apply IH|reflexivity].
Qed.

Lemma dump_fields_acc rt rec p fields acc :
  dump_fields rt rec p fields acc =
  match dump_fields rt rec p fields [] with
  | Dumped s => Dumped (acc ++ s)
  | DumpFails f => DumpFails f
  end.
Proof.
  revert acc. induction fields as [|[key value] fields IH]; intros acc; simpl.
  - by rewrite app_nil_r.
  - assert (forall x,
      dump_fields rt rec p fields (acc ++ x) =
      match dump_fields rt rec p fields x with
      | Dumped s => Dumped (acc ++ s)
      | DumpFails f => DumpFails f
      end) as Hstep.
    { intros x. rewrite (IH (acc ++ x)), (IH x).
      destruct (dump_fields rt rec p fields []); [|reflexivity].
      by rewrite app_assoc. }
    destruct value as [|b|z|[|c s]|items|fields']; try reflexivity;
      try (destruct (rec _ _); [apply Hstep|reflexivity]).
    + apply Hstep.
    + destruct (dump_items rt items); [apply Hstep|reflexivity].
Qed.

(** X9. [_dump_errors] handles the entries of a dict one after the
    other and independently: the dump of a dict is the dump of its first
    entries followed by the dump of the remaining ones, and it fails with
    the first failure among them. *)
Theorem dump_errors_concatenates (rt : runtime) (f1 f2 : list (pystr * json))
    (obj_string : pystr) :
  _dump_errors rt (JObj (f1 ++ f2)) obj_string =
  match _dump_errors rt (JObj f1) obj_string with
  | Dumped s1 =>
      match _dump_errors rt (JObj f2) obj_string with
      | Dumped s2 => Dumped (s1 ++ s2)
      | DumpFails f => DumpFails f
      end
  | DumpFails f => DumpFails f
  end.
Proof.
  simpl. rewrite dump_fields_app.
  destruct (dump_fields rt (_dump_errors rt) obj_string f1 []) as [s1|f];
    [|reflexivity].
  apply dump_fields_acc.
Qed.

Lemma label_of_nonempty s : s <> [] -> label_of s = s.
Proof. by destruct s. Qed.

Lemma nested_is_dict ks e items :
  exists fields, nested ks (JObj [(e, JArr items)]) = JObj fields.
Proof. destruct ks; simpl; eauto. Qed.

Lemma dump_nested rt ks e items p :
  _dump_errors rt (nested ks (JObj [(e, JArr items)])) p =
  match dump_items rt items with
  | Dumped lines =>
      Dumped (label_of (fold_left extend_path ks p) ++ lit ":" ++ lines
              ++ two_newlines)
  | DumpFails f => DumpFails f
  end.
Proof.
  revert p. induction ks as [|k ks IH]; intros p.
  - simpl. destruct (dump_items rt items); reflexivity.
  - cbn [nested fold_left].
    destruct (nested_is_dict ks e items) as [fields Hfields].
    specialize (IH (extend_path p k)). rewrite Hfields in IH |- *.
    cbn [_dump_errors dump_fields]. cbn [_dump_errors] in IH. rewrite IH.
    destruct (dump_items rt items); reflexivity.
Qed.

Lemma fold_extend_path ks p :
  p <> [] -> fold_left extend_path ks p = join (lit ".") (p :: ks).
Proof.
  revert p. induction ks as [|k ks IH]; intros p Hp.
  - reflexivity.
  - cbn [fold_left]. rewrite IH.
    + unfold extend_path. destruct p as [|c p]; [done|].
      destruct ks as [|k' ks]; simpl; by rewrite <- ?app_assoc.
    + unfold extend_path. destruct p; [done|discriminate].
Qed.

Lemma dump_nested_path rt k ks e items :
  k <> [] ->
  _dump_errors rt (nested (k :: ks) (JObj [(e, JArr items)])) [] =
  match dump_items rt items with
  | Dumped lines =>
      Dumped (join (lit ".") (k :: ks) ++ lit ":" ++ lines ++ two_newlines)
  | DumpFails f => DumpFails f
  end.
Proof.
  intros Hk. rewrite dump_nested. cbn [fold_left].
  replace (extend_path [] k) with k by reflexivity.
  rewrite (fold_extend_path ks k Hk).
  assert (join (lit ".") (k :: ks) <> []) as Hne.
  { destruct k; [done|]. destruct ks; discriminate. }
  destruct (dump_items rt items); [|reflexivity].
  do 2 f_equal. apply label_of_nonempty, Hne.
Qed.

(** X10. The label of a list of errors is the dotted path of the keys
    that enclose the dict holding the list, "root" when nothing encloses
    it; the key under which the list itself is stored ("_errors" in what
    Discord sends) never shows. Each item contributes one line. *)
Theorem dump_errors_labels_by_path (rt : runtime) (k : pystr)
    (ks : list pystr) (e : pystr) (items : list json) (lines : pystr) :
  k <> [] ->
  dump_items rt items = Dumped lines ->
  _dump_errors rt (nested (k :: ks) (JObj [(e, JArr items)])) []
  = Dumped (join (lit ".") (k :: ks) ++ lit ":" ++ lines ++ two_newlines) /\
  _dump_errors rt (JObj [(e, JArr items)]) []
  = Dumped (lit "root" ++ lit ":" ++ lines ++ two_newlines).
Proof.
  intros Hk Hitems. split.
  - pose proof (dump_nested_path rt k ks e items Hk) as H.
    rewrite Hitems in H. exact H.
  - pose proof (dump_nested rt [] e items []) as H. rewrite Hitems in H.
    exact H.
Qed.

Lemma dump_errors_labels_by_path_witness :
  _dump_errors sample_runtime
    (JObj [(lit "embeds",
            JObj [(lit "0",
                   JObj [(lit "_errors",
                          JArr [error_item (lit "BASE_TYPE_REQUIRED")
                                           (lit "This field is required")])])])])
    []
  = Dumped (lit "embeds.0:" ++ bullet ++ lit "This field is required"
            ++ two_newlines).
Proof.
  apply (proj1 (dump_errors_labels_by_path sample_runtime (lit "embeds")
                  [lit "0"] (lit "_errors")
                  [error_item (lit "BASE_TYPE_REQUIRED")
                              (lit "This field is required")]
                  (bullet ++ lit "This field is required")
                  ltac:(vm_compute; discriminate) ltac:(reflexivity))).
Defined.

Lemma dump_fields_ends rt rec p fields :
  Forall (fun kv => forall q s, rec (snd kv) q = Dumped s ->
            s = [] \/ exists s', s = s' ++ two_newlines) fields ->
  forall acc s,
    acc = [] \/ (exists a, acc = a ++ two_newlines) ->
    dump_fields rt rec p fields acc = Dumped s ->
    s = [] \/ exists s', s = s' ++ two_newlines.
Proof.
  induction 1 as [|[key value] fields Hvalue _ IH]; intros acc s Hacc; simpl.
  - intros H. apply (f_equal (fun r => match r with Dumped x => x | _ => [] end)) in H.
    by subst s.
  - simpl in Hvalue.
    assert (forall x, dump_fields rt rec p fields (acc ++ x ++ two_newlines)
                      = Dumped s ->
                      s = [] \/ exists s', s = s' ++ two_newlines) as Hlist.
    { intros x. apply IH. right. exists (acc ++ x). by rewrite <- app_assoc. }
    assert (forall q, match rec value q with
                      | Dumped s0 => dump_fields rt rec p fields (acc ++ s0)
                      | DumpFails f => DumpFails f
                      end = Dumped s ->
                      s = [] \/ exists s', s = s' ++ two_newlines) as Hrec.
    { intros q. destruct (rec value q) as [s0|f] eqn:Hq; [|discriminate].
      apply IH. destruct (Hvalue q s0 Hq) as [->|[s' ->]].
      - by rewrite app_nil_r.
      - right. exists (acc ++ s'). by rewrite <- app_assoc. }
    destruct value as [|b|z|[|c str]|items|fields']; try apply Hrec.
    + intros H. apply (Hlist (label_of p ++ lit ":")).
      by rewrite <- !app_assoc.
    + discriminate.
    + destruct (dump_items rt items) as [lines|f]; [|discriminate].
      intros H. apply (Hlist (label_of p ++ lit ":" ++ lines)).
      by rewrite <- !app_assoc.
Qed.

(** X11. Whatever the errors and the path, a dump that succeeds is empty
    or ends with a blank line: that is what [strip] removes in
    [BadRequestError.__str__]. *)
Theorem dump_errors_ends_with_blank_line (rt : runtime) (obj : json)
    (obj_string s : pystr) :
  _dump_errors rt obj obj_string = Dumped s ->
  s = [] \/ exists s', s = s' ++ two_newlines.
Proof.
  revert obj_string s.
  induction obj as [|b|z|str|items _|fields IH] using json_nested_ind;
    intros obj_string s; try discriminate.
  simpl. apply dump_fields_ends; [exact IH|by left].
Qed.

Lemma dump_errors_ends_with_blank_line_witness :
  exists s',
    lit "root:" ++ bullet ++ lit "Too long" ++ two_newlines
    = s' ++ two_newlines.
Proof.
  destruct (dump_errors_ends_with_blank_line sample_runtime
              (JObj [(lit "_errors",
                      JArr [error_item (lit "TOO_LONG") (lit "Too long")])])
              [] (lit "root:" ++ bullet ++ lit "Too long" ++ two_newlines)
              ltac:(reflexivity)) as [H|H].
  - vm_compute in H. discriminate H.
  - exact H.
Defined.

Lemma dump_items_fails_at rt good item rest :
  Forall has_message good ->
  (lacks_message item ->
   dump_items rt (good ++ item :: rest) = DumpFails MissingMessage) /\
  (not_a_dict item ->
   dump_items rt (good ++ item :: rest) = DumpFails NotSubscriptable).
Proof.
  intros Hgood.
  induction Hgood as [|g good (fields & m & -> & Hm) _ IH]; simpl.
  - split.
    + intros (fields & -> & Hm). by rewrite Hm.
    + intros Hnot. destruct item; try reflexivity. by destruct (Hnot fields).
  - rewrite Hm. destruct IH as [IH1 IH2]. split.
    + intros H. by rewrite (IH1 H).
    + intros H. by rewrite (IH2 H).
Qed.

(** X12. The lines of a list of errors are written exactly when every
    item is a dict with a ['message']; an item that is not a dict stops
    the dump with [TypeError] and a dict without ['message'] with
    [KeyError], whichever comes first. *)
Theorem dump_items_needs_messages (rt : runtime) (items : list json) :
  ((exists lines, dump_items rt items = Dumped lines) <->
   Forall has_message items) /\
  (forall good item rest,
     items = good ++ item :: rest -> Forall has_message good ->
     (lacks_message item -> dump_items rt items = DumpFails MissingMessage) /\
     (not_a_dict item -> dump_items rt items = DumpFails NotSubscriptable)).
Proof.
  split.
  - induction items as [|item items IH]; simpl.
    + split; [constructor|eauto].
    + split.
      * intros [lines H].
        destruct item as [| | | | |fields]; try discriminate H.
        destruct (json_get (lit "message") fields) as [m|] eqn:Hm;
          [|discriminate H].
        destruct (dump_items rt items) as [lines'|f]; [|discriminate H].
        constructor; [by exists fields, m|]. apply IH. eauto.
      * intros H. inversion H as [|? ? (fields & m & -> & Hm) Hrest]; subst.
        rewrite Hm. apply IH in Hrest as [lines ->]. eauto.
  - intros good item rest -> Hgood. by apply dump_items_fails_at.
Qed.

Lemma dump_items_needs_messages_witness :
  dump_items sample_runtime
    [error_item (lit "A") (lit "first"); JObj [(lit "code", JStr (lit "B"))];
     JStr (lit "stray")]
  = DumpFails MissingMessage.
Proof.
  apply (proj2 (dump_items_needs_messages sample_runtime _)
           [error_item (lit "A") (lit "first")]
           (JObj [(lit "code", JStr (lit "B"))]) [JStr (lit "stray")]
           eq_refl).
  - constructor; [|constructor].
    exists [(lit "code", JStr (lit "A")); (lit "message", JStr (lit "first"))],
      (JStr (lit "first")).
    split; reflexivity.
  - exists [(lit "code", JStr (lit "B"))]. split; reflexivity.
Defined.

(** ** The text of a bad request error *)

Lemma HTTPResponseError__str__nonempty rt o s :
  HTTPResponseError__str__ rt o = Ok s -> s <> [].
Proof.
  unfold HTTPResponseError__str__. intros Hstr.
  destruct (getattr o "status") as [status|e];
    cbn [mbind result_bind] in Hstr; [|discriminate Hstr].
  destruct (getattr o "code") as [code|e]; cbn [mbind result_bind] in Hstr;
    [|discriminate Hstr].
  destruct (getattr o "message") as [message|e];
    cbn [mbind result_bind] in Hstr; [|discriminate Hstr].
  match type of Hstr with
  | (?body ≫= _) = _ => destruct body as [b|e]
  end; cbn [mbind result_bind] in Hstr; [|discriminate Hstr].
  destruct (getattr o "url") as [url|e]; cbn [mbind result_bind] in Hstr;
    [|discriminate Hstr].
  apply Ok_inj in Hstr as <-.
  intros H. apply app_eq_nil in H as [_ H]. discriminate H.
Qed.

Lemma truthy_text s : s <> [] -> truthy (VStr s) = true.
Proof. intros H. simpl. by rewrite bool_decide_eq_false_2. Qed.

Lemma cached_text_returned rt dumps o s :
  getattr o "_cached_str" = Ok (VStr s) -> s <> [] ->
  BadRequestError__str__ rt dumps o = (Ok s, o).
Proof.
  intros Hget Hne. unfold BadRequestError__str__.
  by rewrite Hget, (truthy_text s Hne).
Qed.

Lemma BadRequestError__str__inv rt dumps o s o' :
  BadRequestError__str__ rt dumps o = (Ok s, o') ->
  (getattr o "_cached_str" = Ok (VStr s) /\ s <> [] /\ o' = o) \/
  (exists cached base errors,
     getattr o "_cached_str" = Ok cached /\ truthy cached = false /\
     HTTPResponseError__str__ rt o = Ok base /\
     getattr o "errors" = Ok errors /\
     o' = setattr o "_cached_str" (VStr s) /\
     (truthy errors = false /\ s = base \/
      truthy errors = true /\ exists detail, s = base ++ two_newlines ++ detail)).
Proof.
  unfold BadRequestError__str__.
  destruct (getattr o "_cached_str") as [cached|e]; [|intros [=]].
  destruct (truthy cached) eqn:Hcached.
  - destruct cached; try (intros [=]; fail). intros [= -> <-]. left.
    split; [done|]. split; [|done]. intros ->. discriminate Hcached.
  - destruct (HTTPResponseError__str__ rt o) as [base|e]; [|intros [=]].
    destruct (getattr o "errors") as [errors|e]; [|intros [=]].
    destruct (truthy errors) eqn:Herrors.
    + destruct errors as [| | | | | | | |j|]; try (intros [=]; fail).
      destruct (_dump_errors rt j []) as [d|[| |]]; try (intros [=]; fail);
        intros [= <- <-]; right; exists cached, base, (VJson j);
        repeat split; try done; right; split; eauto.
    + intros [= <- <-]. right. exists cached, base, errors.
      repeat split; try done. by left.
Qed.

Lemma BadRequestError__init__cache self args kwargs o :
  BadRequestError__init__ self args kwargs = Ok o ->
  getattr o "_cached_str" = Ok VNone.
Proof.
  unfold BadRequestError__init__.
  destruct (bind_kwonly _ args kwargs) as [b|e]; simpl; [|discriminate].
  destruct (HTTPResponseError__init__ _ _ _) as [o'|e]; simpl;
    [|discriminate].
  intros H. apply Ok_inj in H as <-. apply getattr_setattr_eq.
Qed.

(** X13. On a newly built [BadRequestError], whenever [__str__] returns
    a text, the text begins with what [HTTPResponseError.__str__] gives
    for the same instance; when no errors were given (or empty ones) it is
    exactly that text, otherwise a blank line and the details follow; and
    the returned text is stored in [_cached_str]. *)
Theorem bad_request_text_extends_response_text (rt : runtime)
    (dumps : json -> pystr) (args : list pyval) (kwargs : gmap string pyval)
    (o o' : obj) (s : pystr) :
  new rt BadRequestError args kwargs = Ok o ->
  BadRequestError__str__ rt dumps o = (Ok s, o') ->
  exists base,
    HTTPResponseError__str__ rt o = Ok base /\
    o' = setattr o "_cached_str" (VStr s) /\
    (truthy (default VNone (kwargs !! "errors"%string)) = false -> s = base) /\
    (truthy (default VNone (kwargs !! "errors"%string)) = true ->
       exists detail, s = base ++ two_newlines ++ detail).
Proof.
  intros Hnew Hstr. unfold new in Hnew.
  pose proof (BadRequestError__init__cache _ _ _ _ Hnew) as Hcache.
  apply BadRequestError__init__status in Hnew as (_ & _ & _ & _ & Herrors).
  apply BadRequestError__str__inv in Hstr
    as [(Hc & _ & _)|(cached & base & errors & _ & _ & Hbase & He & Ho & Hs)].
  - rewrite Hcache in Hc. discriminate Hc.
  - rewrite Herrors in He. apply Ok_inj in He as <-.
    exists base. split; [exact Hbase|]. split; [exact Ho|].
    destruct Hs as [[Hf ->]|[Ht Hs]]; split; try done; rewrite ?Hf, ?Ht;
      discriminate.
Qed.

Lemma bad_request_text_extends_response_text_witness :
  let kwargs : gmap string pyval :=
    <["url"%string := VStr (lit "https://example.test/api")]>
      (<["headers"%string := VJson (JObj [])]>
         (<["raw_body"%string := VBytes [123; 125]%N]>
            {[ "message"%string := VBytes [111; 111; 112; 115]%N ]})) in
  let text := lit "Bad Request 400: 'b'oops'' for https://example.test/api" in
  exists o o',
    new sample_runtime BadRequestError [] kwargs = Ok o /\
    BadRequestError__str__ sample_runtime (fun _ => []) o = (Ok text, o') /\
    HTTPResponseError__str__ sample_runtime o = Ok text /\
    getattr o' "_cached_str" = Ok (VStr text).
Proof.
  intros kwargs text.
  destruct (new sample_runtime BadRequestError [] kwargs) as [o|e] eqn:Hnew;
    [|vm_compute in Hnew; discriminate Hnew].
  destruct (BadRequestError__str__ sample_runtime (fun _ => []) o)
    as [r o'] eqn:Hstr.
  assert (r = Ok text) as ->.
  { apply (f_equal fst) in Hstr. simpl in Hstr. subst r.
    vm_compute in Hnew. apply Ok_inj in Hnew as <-. vm_compute. reflexivity. }
  destruct (bad_request_text_extends_response_text sample_runtime
              (fun _ => []) [] kwargs o o' text Hnew Hstr)
    as (base & Hbase & Ho & Hnone & _).
  exists o, o'. split; [reflexivity|]. split; [exact Hstr|].
  split; [rewrite (Hnone eq_refl); exact Hbase|].
  rewrite Ho. apply getattr_setattr_eq.
Defined.

(** X14. Once [BadRequestError.__str__] has returned a text, it returns
    the same text ever after, whatever attribute of the instance's
    dictionary other than [_cached_str] is assigned in between
    ([message], [errors], [url], ...): the text is computed at most once
    and never refreshed. (Assigning [__class__], [__dict__] or another
    name that is not kept in the dictionary is a different matter.) *)
Theorem bad_request_text_is_computed_once (rt : runtime)
    (dumps : json -> pystr) (o o' : obj) (s : pystr) :
  BadRequestError__str__ rt dumps o = (Ok s, o') ->
  getattr o' "_cached_str" = Ok (VStr s) /\
  BadRequestError__str__ rt dumps o' = (Ok s, o') /\
  forall rt' dumps' (name : string) (v : pyval),
    name <> "_cached_str"%string ->
    data_descriptor (cls o') name = false ->
    BadRequestError__str__ rt' dumps' (setattr o' name v)
    = (Ok s, setattr o' name v).
Proof.
  intros Hstr.
  assert (getattr o' "_cached_str" = Ok (VStr s) /\ s <> []) as [Hget Hne].
  { apply BadRequestError__str__inv in Hstr
      as [(Hc & Hne & ->)|(cached & base & errors & _ & _ & Hbase & _ & -> & Hs)].
    - done.
    - split; [apply getattr_setattr_eq|].
      apply HTTPResponseError__str__nonempty in Hbase.
      destruct Hs as [[_ ->]|[_ [detail ->]]]; [done|].
      intros H. by apply app_eq_nil in H as [H _]. }
  split; [exact Hget|]. split; [by apply cached_text_returned|].
  intros rt' dumps' name v Hname _. apply cached_text_returned; [|exact Hne].
  by rewrite getattr_setattr_ne.
Qed.

Lemma bad_request_text_is_computed_once_witness :
  let o := mkObj BadRequestError
             (<["_cached_str"%string := VNone]>
                (<["errors"%string := VNone]>
                   (<["message"%string := VStr (lit "Invalid Form Body")]>
                      (<["status"%string := VStatus BAD_REQUEST]>
                         (<["code"%string := VInt 50035]>
                            {[ "url"%string := VStr (lit "https://example.test") ]}))))) in
  let text := lit "Bad Request 400: (50035) 'Invalid Form Body' for https://example.test" in
  exists o',
    BadRequestError__str__ sample_runtime (fun _ => []) o = (Ok text, o') /\
    BadRequestError__str__ sample_runtime (fun _ => [])
      (setattr o' "message" (VStr (lit "changed")))
    = (Ok text, setattr o' "message" (VStr (lit "changed"))).
Proof.
  intros o text.
  exists (setattr o "_cached_str" (VStr text)).
  assert (BadRequestError__str__ sample_runtime (fun _ => []) o
          = (Ok text, setattr o "_cached_str" (VStr text))) as Hstr
    by (vm_compute; reflexivity).
  split; [exact Hstr|].
  apply (proj2 (proj2 (bad_request_text_is_computed_once sample_runtime
                         (fun _ => []) o _ text Hstr))).
  - discriminate.
  - reflexivity.
Defined.

Lemma fresh_bad_request_text rt dumps kwargs o base j :
  new rt BadRequestError [] kwargs = Ok o ->
  kwargs !! "errors"%string = Some (VJson j) ->
  truthy (VJson j) = true ->
  HTTPResponseError__str__ rt o = Ok base ->
  BadRequestError__str__ rt dumps o =
  match _dump_errors rt j [] with
  | Dumped s =>
      (Ok (base ++ two_newlines ++ strip_newlines s),
       setattr o "_cached_str"
         (VStr (base ++ two_newlines ++ strip_newlines s)))
  | DumpFails MissingMessage =>
      (Ok (base ++ two_newlines ++ dumps j),
       setattr o "_cached_str" (VStr (base ++ two_newlines ++ dumps j)))
  | DumpFails NotSubscriptable => (raise TypeError, o)
  | DumpFails NoItems => (raise AttributeError, o)
  end.
Proof.
  intros Hnew Herr Htruthy Hbase. unfold new in Hnew.
  pose proof (BadRequestError__init__cache _ _ _ _ Hnew) as Hcache.
  apply BadRequestError__init__status in Hnew as (_ & _ & _ & _ & Herrors).
  rewrite Herr in Herrors. simpl in Herrors.
  unfold BadRequestError__str__.
  rewrite Hcache. cbn [truthy]. rewrite Hbase, Herrors, Htruthy.
  reflexivity.
Qed.

Lemma field_errors_truthy ks items : truthy (VJson (field_errors ks items)) = true.
Proof. unfold field_errors. destruct ks; reflexivity. Qed.

Lemma dump_field_errors rt ks items :
  _dump_errors rt (field_errors ks items) [] =
  match dump_items rt items with
  | Dumped lines =>
      Dumped (label_of (fold_left extend_path ks []) ++ lit ":" ++ lines
              ++ two_newlines)
  | DumpFails f => DumpFails f
  end.
Proof. apply dump_nested. Qed.

(** X15. When an item of an error list is a dict without ['message'],
    and the items before it are well formed, the [KeyError] is caught and
    the text of the [BadRequestError] is the response text, a blank line,
    and [json.dumps] of the whole of [errors]. *)
Theorem bad_request_text_falls_back_to_json (rt : runtime)
    (dumps : json -> pystr) (kwargs : gmap string pyval) (o : obj)
    (base : pystr) (ks : list pystr) (good : list json) (item : json)
    (rest : list json) :
  new rt BadRequestError [] kwargs = Ok o ->
  kwargs !! "errors"%string
    = Some (VJson (field_errors ks (good ++ item :: rest))) ->
  Forall has_message good ->
  lacks_message item ->
  HTTPResponseError__str__ rt o = Ok base ->
  fst (BadRequestError__str__ rt dumps o)
  = Ok (base ++ two_newlines
        ++ dumps (field_errors ks (good ++ item :: rest))).
Proof.
  intros Hnew Herr Hgood Hitem Hbase.
  rewrite (fresh_bad_request_text rt dumps kwargs o base _ Hnew Herr
             (field_errors_truthy _ _) Hbase).
  rewrite dump_field_errors.
  destruct (dump_items_fails_at rt good item rest Hgood) as [Hkey _].
  by rewrite (Hkey Hitem).
Qed.

Lemma bad_request_text_falls_back_to_json_witness :
  let errors := field_errors [lit "name"] [JObj [(lit "code", JStr (lit "X"))]] in
  let kwargs : gmap string pyval :=
    <["url"%string := VStr (lit "https://example.test/api")]>
      (<["headers"%string := VJson (JObj [])]>
         (<["raw_body"%string := VBytes [123; 125]%N]>
            {[ "errors"%string := VJson errors ]})) in
  exists o,
    new sample_runtime BadRequestError [] kwargs = Ok o /\
    fst (BadRequestError__str__ sample_runtime (fun _ => lit "{..}") o)
    = Ok (lit "Bad Request 400: '{}' for https://example.test/api"
          ++ two_newlines ++ lit "{..}").
Proof.
  intros errors kwargs.
  destruct (new sample_runtime BadRequestError [] kwargs) as [o|e] eqn:Hnew;
    [|vm_compute in Hnew; discriminate Hnew].
  exists o. split; [reflexivity|].
  apply (bad_request_text_falls_back_to_json sample_runtime
           (fun _ => lit "{..}") kwargs o _ [lit "name"] []
           (JObj [(lit "code", JStr (lit "X"))]) [] Hnew).
  - reflexivity.
  - constructor.
  - exists [(lit "code", JStr (lit "X"))]. split; reflexivity.
  - vm_compute in Hnew. apply Ok_inj in Hnew as <-. vm_compute. reflexivity.
Defined.

(** X16. Only [KeyError] is caught around [_dump_errors]: when an item
    of an error list is not a dict (and the items before it are well
    formed) [BadRequestError.__str__] raises [TypeError], and when
    [errors] is a non-empty list or string rather than a dict it raises
    [AttributeError]; in both cases nothing is cached. *)
Theorem bad_request_text_raises_on_malformed_errors (rt : runtime)
    (dumps : json -> pystr) (kwargs : gmap string pyval) (o : obj)
    (base : pystr) :
  new rt BadRequestError [] kwargs = Ok o ->
  HTTPResponseError__str__ rt o = Ok base ->
  (forall ks good item rest,
     kwargs !! "errors"%string
       = Some (VJson (field_errors ks (good ++ item :: rest))) ->
     Forall has_message good -> not_a_dict item ->
     BadRequestError__str__ rt dumps o = (raise TypeError, o)) /\
  (forall x l,
     kwargs !! "errors"%string = Some (VJson (JArr (x :: l))) ->
     BadRequestError__str__ rt dumps o = (raise AttributeError, o)) /\
  (forall c s,
     kwargs !! "errors"%string = Some (VJson (JStr (c :: s))) ->
     BadRequestError__str__ rt dumps o = (raise AttributeError, o)).
Proof.
  intros Hnew Hbase. split; [|split].
  - intros ks good item rest Herr Hgood Hitem.
    rewrite (fresh_bad_request_text rt dumps kwargs o base _ Hnew Herr
               (field_errors_truthy _ _) Hbase).
    rewrite dump_field_errors.
    destruct (dump_items_fails_at rt good item rest Hgood) as [_ Htype].
    by rewrite (Htype Hitem).
  - intros x l Herr.
    by rewrite (fresh_bad_request_text rt dumps kwargs o base _ Hnew Herr
                  eq_refl Hbase).
  - intros c s Herr.
    by rewrite (fresh_bad_request_text rt dumps kwargs o base _ Hnew Herr
                  eq_refl Hbase).
Qed.

Lemma bad_request_text_raises_on_malformed_errors_witness :
  let errors := field_errors [lit "name"] [JStr (lit "oops")] in
  let kwargs : gmap string pyval :=
    <["url"%string := VStr (lit "https://example.test/api")]>
      (<["headers"%string := VJson (JObj [])]>
         (<["raw_body"%string := VBytes [123; 125]%N]>
            {[ "errors"%string := VJson errors ]})) in
  exists o,
    new sample_runtime BadRequestError [] kwargs = Ok o /\
    BadRequestError__str__ sample_runtime (fun _ => []) o
    = (raise TypeError, o).
Proof.
  intros errors kwargs.
  destruct (new sample_runtime BadRequestError [] kwargs) as [o|e] eqn:Hnew;
    [|vm_compute in Hnew; discriminate Hnew].
  exists o. split; [reflexivity|].
  assert (HTTPResponseError__str__ sample_runtime o
          = Ok (lit "Bad Request 400: '{}' for https://example.test/api"))
    as Hbase.
  { vm_compute in Hnew. apply Ok_inj in Hnew as <-. vm_compute. reflexivity. }
  apply (proj1 (bad_request_text_raises_on_malformed_errors sample_runtime
                  (fun _ => []) kwargs o _ Hnew Hbase)
           [lit "name"] [] (JStr (lit "oops")) []).
  - reflexivity.
  - constructor.
  - intros fields. discriminate.
Defined.

(** *** The usual shape of the errors *)

Lemma last_app_nonempty {A} (l1 l2 : list A) (d : A) :
  l2 <> [] -> List.last (l1 ++ l2) d = List.last l2 d.
Proof.
  intros H. rewrite (app_removelast_last d H) at 1.
  rewrite app_assoc. apply last_last.
Qed.

Lemma hd_rev_last {A} (l : list A) (d : A) : hd d (rev l) = List.last l d.
Proof.
  destruct l as [|a l]; [reflexivity|].
  assert (a :: l <> []) as H by discriminate.
  rewrite (app_removelast_last d H) at 1.
  by rewrite rev_app_distr.
Qed.

Lemma lstrip_newlines_id s : hd 0%N s <> 10%N -> lstrip_newlines s = s.
Proof.
  destruct s as [|c s]; [reflexivity|]. simpl. intros H.
  destruct (N.eqb_spec c 10); [done|reflexivity].
Qed.

Lemma strip_newlines_blank_line s :
  hd 0%N s <> 10%N -> List.last s 0%N <> 10%N ->
  strip_newlines (s ++ two_newlines) = s.
Proof.
  intros Hhd Hlast. unfold strip_newlines.
  assert (lstrip_newlines (s ++ two_newlines) = s ++ two_newlines \/
          s = []) as [->| ->].
  { destruct s as [|c s]; [by right|left].
    apply lstrip_newlines_id. exact Hhd. }
  - rewrite rev_app_distr. simpl.
    rewrite lstrip_newlines_id by (by rewrite hd_rev_last).
    apply rev_involutive.
  - reflexivity.
Qed.

Lemma dump_items_of_messages rt (msgs : list (pystr * pystr)) :
  dump_items rt (map (fun cm => error_item (fst cm) (snd cm)) msgs)
  = Dumped (message_lines (map snd msgs)).
Proof.
  induction msgs as [|[c m] msgs IH]; [reflexivity|].
  cbn [map fst snd]. unfold error_item at 1. cbn [dump_items].
  replace (json_get (lit "message")
             [(lit "code", JStr c); (lit "message", JStr m)])
    with (Some (JStr m)) by reflexivity.
  rewrite IH. unfold message_lines. cbn [map concat json_str].
  by rewrite <- app_assoc.
Qed.

Lemma message_lines_last (pre : pystr) (messages : list pystr) :
  pre <> [] -> List.last pre 0%N <> 10%N ->
  Forall (fun m => List.last m 0%N <> 10%N) messages ->
  List.last (pre ++ message_lines messages) 0%N <> 10%N.
Proof.
  intros Hne Hpre Hall. revert pre Hne Hpre.
  induction Hall as [|m messages Hm _ IH]; intros pre Hne Hpre.
  - unfold message_lines. simpl. by rewrite app_nil_r.
  - unfold message_lines. cbn [map concat]. fold (message_lines messages).
    rewrite (app_assoc pre (bullet ++ m) (message_lines messages)).
    apply IH.
    + destruct pre; [done|discriminate].
    + rewrite last_app_nonempty by discriminate.
      destruct m as [|c m]; [vm_compute; discriminate|].
      unfold bullet.
      by rewrite (last_app_nonempty [10; 32; 45; 32]%N (c :: m)) by discriminate.
Qed.

(** X17. For errors in the shape that Discord sends, a list of dicts
    with a [code] and a [message] under ["_errors"], itself under the keys
    that lead to the field in question, the text of a [BadRequestError]
    is the response text, a blank line, the dotted path of the field with
    a colon, and one line " - message" for each item, with nothing after
    the last one. (The first key is taken not to begin, and the messages
    not to end, with a newline, which [strip] would remove as well.) *)
Theorem bad_request_text_lists_field_errors (rt : runtime)
    (dumps : json -> pystr) (kwargs : gmap string pyval) (o : obj)
    (base : pystr) (k : pystr) (ks : list pystr)
    (msgs : list (pystr * pystr)) :
  new rt BadRequestError [] kwargs = Ok o ->
  kwargs !! "errors"%string
    = Some (VJson (field_errors (k :: ks)
                     (map (fun cm => error_item (fst cm) (snd cm)) msgs))) ->
  HTTPResponseError__str__ rt o = Ok base ->
  k <> [] -> hd 0%N k <> 10%N ->
  Forall (fun m => List.last m 0%N <> 10%N) (map snd msgs) ->
  fst (BadRequestError__str__ rt dumps o)
  = Ok (base ++ two_newlines ++ join (lit ".") (k :: ks) ++ lit ":"
        ++ message_lines (map snd msgs)).
Proof.
  intros Hnew Herr Hbase Hk Hhd Hlast.
  rewrite (fresh_bad_request_text rt dumps kwargs o base _ Hnew Herr
             (field_errors_truthy _ _) Hbase).
  unfold field_errors.
  rewrite (dump_nested_path rt k ks (lit "_errors") _ Hk).
  rewrite dump_items_of_messages. cbn [fst]. do 3 f_equal.
  rewrite 2!app_assoc. rewrite strip_newlines_blank_line.
  - by rewrite <- app_assoc.
  - destruct k as [|c k]; [done|]. destruct ks; exact Hhd.
  - rewrite <- app_assoc. rewrite app_assoc.
    apply message_lines_last; [| |exact Hlast].
    + intros H. by apply app_eq_nil in H as [_ H].
    + by rewrite last_app_nonempty by discriminate.
Qed.

Lemma bad_request_text_lists_field_errors_witness :
  let msgs := [(lit "BASE_TYPE_REQUIRED", lit "This field is required");
               (lit "TOO_LONG", lit "Too long")] in
  let errors := field_errors [lit "embeds"; lit "0"]
                  (map (fun cm => error_item (fst cm) (snd cm)) msgs) in
  let kwargs : gmap string pyval :=
    <["url"%string := VStr (lit "https://example.test/api")]>
      (<["headers"%string := VJson (JObj [])]>
         (<["raw_body"%string := VBytes [123; 125]%N]>
            {[ "errors"%string := VJson errors ]})) in
  exists o,
    new sample_runtime BadRequestError [] kwargs = Ok o /\
    fst (BadRequestError__str__ sample_runtime (fun _ => []) o)
    = Ok (lit "Bad Request 400: '{}' for https://example.test/api"
          ++ two_newlines ++ lit "embeds.0:"
          ++ bullet ++ lit "This field is required"
          ++ bullet ++ lit "Too long").
Proof.
  intros msgs errors kwargs.
  destruct (new sample_runtime BadRequestError [] kwargs) as [o|e] eqn:Hnew;
    [|vm_compute in Hnew; discriminate Hnew].
  exists o. split; [reflexivity|].
  apply (bad_request_text_lists_field_errors sample_runtime (fun _ => [])
           kwargs o _ (lit "embeds") [lit "0"] msgs Hnew).
  - reflexivity.
  - vm_compute in Hnew. apply Ok_inj in Hnew as <-. vm_compute. reflexivity.
  - vm_compute. discriminate.
  - vm_compute. discriminate.
  - repeat constructor; vm_compute; discriminate.
Defined.

(** * Further properties of hikari.internal.signals *)

Lemma handle_interrupts_enabled pf rt enabled cb body st1 :
  resolve_enabled pf enabled = true ->
  armed pf = (Ok (), st1) ->
  handle_interrupts pf rt enabled cb body =
  finally_clause pf
    (fst (except_clause pf rt cb (fst (run_code pf rt body st1)) st1))
    (snd (except_clause pf rt cb (fst (run_code pf rt body st1)) st1)).
Proof.
  intros Hen Harm. unfold handle_interrupts. rewrite Hen, Harm. cbn [negb].
  destruct (run_code pf rt body st1) as [o st] eqn:Hrun.
  pose proof (run_code_state pf rt body st1) as Hst.
  rewrite Hrun in Hst. cbn [fst snd] in Hst |- *. subst st.
  destruct (except_clause pf rt cb o st1). reflexivity.
Qed.

Lemma install_on_main_thread pf d sigs st :
  in_main_thread pf = true ->
  exists st',
    install pf d sigs st = (Ok (), st') /\
    (forall sig n, In sig sigs -> signal_number pf sig = Some n ->
       handlers st' !! n = Some d) /\
    (forall n, handlers st !! n = Some d -> handlers st' !! n = Some d).
Proof.
  intros Hmain. revert st.
  induction sigs as [|sig rest IH]; intros st; simpl.
  - exists st. split; [done|]. split; [intros ? ? []|done].
  - destruct (signal_number pf sig) as [n|] eqn:Hsig.
    + rewrite Hmain.
      destruct (IH (set_handler n d st)) as (st' & -> & Hset & Hkeep).
      exists st'. split; [done|]. split.
      * intros sig' n' [<-|Hin] Hn'.
        -- rewrite Hsig in Hn'. injection Hn' as <-.
           apply Hkeep. simpl. apply lookup_insert_eq.
        -- by apply (Hset sig').
      * intros n' Hn'. apply Hkeep. simpl.
        destruct (decide (n = n')) as [->|Hne];
          [apply lookup_insert_eq|by rewrite lookup_insert_ne].
    + destruct (IH st) as (st' & -> & Hset & Hkeep).
      exists st'. split; [done|]. split; [|done].
      intros sig' n' [<-|Hin] Hn'; [congruence|by apply (Hset sig')].
Qed.

(** X18. With interrupts disabled, be it by [enabled=False] or by
    [enabled=None] away from the main thread, the context manager does
    nothing: no handler is installed, the exit callback is never called
    even when the body raises, and the body ends as it would on its own
    (a signal that arrives is left to the process). *)
Theorem disabled_interrupts_do_nothing (pf : platform) (rt : runtime)
    (enabled : option bool) (exit_callback body : code) :
  resolve_enabled pf enabled = false ->
  snd (handle_interrupts pf rt enabled exit_callback body) = initial /\
  fst (handle_interrupts pf rt enabled exit_callback body)
  = match body with
    | Returns => Returned
    | Raises e => Raised e
    | Signal signum _ _ => Unhandled signum
    end.
Proof.
  intros Hen. unfold handle_interrupts. rewrite Hen. simpl.
  split; [apply run_code_state|]. by destruct body.
Qed.

Lemma disabled_interrupts_do_nothing_witness :
  let off_main := mkPlatform (signal_number posix) (strsignal posix) false in
  let e := mkObj RuntimeError ∅ in
  handle_interrupts off_main sample_runtime None Returns (Raises e)
  = (Raised e, initial).
Proof.
  intros off_main e.
  destruct (disabled_interrupts_do_nothing off_main sample_runtime None
              Returns (Raises e) eq_refl) as [Hst Ho].
  rewrite (surjective_pairing (handle_interrupts _ _ _ _ _)).
  by rewrite Hst, Ho.
Defined.

(** X19. Enabling the interrupts explicitly away from the main thread
    makes [signal.signal] raise [ValueError] at the first interrupt signal
    that the platform has: the error leaves the context manager before the
    body runs, no handler is installed and the exit callback is not
    called. *)
Theorem enabling_off_main_thread_raises (pf : platform) (rt : runtime)
    (exit_callback body : code) (sig : string) (n : Z) :
  in_main_thread pf = false ->
  In sig _INTERRUPT_SIGNALS ->
  signal_number pf sig = Some n ->
  handle_interrupts pf rt (Some true) exit_callback body
  = (Raised (mkObj ValueError ∅), initial).
Proof.
  intros Hoff Hin Hsig. unfold handle_interrupts, armed. simpl.
  destruct (signal_number pf "SIGINT") as [n1|] eqn:H1.
  - by rewrite Hoff.
  - destruct (signal_number pf "SIGTERM") as [n2|] eqn:H2.
    + by rewrite Hoff.
    + exfalso. destruct Hin as [<-|[<-|[]]]; congruence.
Qed.

Lemma enabling_off_main_thread_raises_witness :
  let off_main := mkPlatform (signal_number posix) (strsignal posix) false in
  handle_interrupts off_main sample_runtime (Some true) Returns Returns
  = (Raised (mkObj ValueError ∅), initial).
Proof.
  intros off_main.
  apply (enabling_off_main_thread_raises off_main sample_runtime Returns
           Returns "SIGTERM" 15).
  - reflexivity.
  - simpl. tauto.
  - reflexivity.
Defined.

(** X20. On the main thread with interrupts enabled, unless a signal
    outside the handled ones ends the run, every interrupt signal of the
    platform is back at [SIG_DFL] when the context manager is left,
    however the body and the exit callback end: the handlers are reset to
    the default, not to what was installed before. *)
Theorem handlers_are_reset_to_default (pf : platform) (rt : runtime)
    (enabled : option bool) (exit_callback body : code) (sig : string)
    (n : Z) :
  in_main_thread pf = true ->
  resolve_enabled pf enabled = true ->
  (forall signum,
     fst (handle_interrupts pf rt enabled exit_callback body)
     <> Unhandled signum) ->
  In sig _INTERRUPT_SIGNALS ->
  signal_number pf sig = Some n ->
  handlers (snd (armed pf)) !! n = Some Handler /\
  handlers (snd (handle_interrupts pf rt enabled exit_callback body)) !! n
  = Some SIG_DFL.
Proof.
  intros Hmain Hen Hhandled Hin Hsig.
  destruct (install_on_main_thread pf Handler _INTERRUPT_SIGNALS initial Hmain)
    as (st1 & Harm & Hset1 & _).
  fold (armed pf) in Harm. rewrite Harm. split; [by apply (Hset1 sig)|].
  rewrite (handle_interrupts_enabled pf rt enabled exit_callback body st1
             Hen Harm) in Hhandled |- *.
  destruct (except_clause pf rt exit_callback
              (fst (run_code pf rt body st1)) st1) as [o2 st2].
  cbn [fst snd] in Hhandled |- *. unfold finally_clause in Hhandled |- *.
  destruct (install_on_main_thread pf SIG_DFL _INTERRUPT_SIGNALS st2 Hmain)
    as (st3 & Hfin & Hset3 & _).
  rewrite Hfin in Hhandled |- *.
  destruct o2 as [|e|signum].
  - destruct (interrupt st3); by apply (Hset3 sig).
  - destruct (interrupt st3); by apply (Hset3 sig).
  - by destruct (Hhandled signum).
Qed.

Lemma handlers_are_reset_to_default_witness :
  handlers (snd (handle_interrupts posix sample_runtime None Returns
                   (Raises (mkObj ValueError ∅)))) !! 15
  = Some SIG_DFL.
Proof.
  apply (handlers_are_reset_to_default posix sample_runtime None Returns
           (Raises (mkObj ValueError ∅)) "SIGTERM" 15).
  - reflexivity.
  - reflexivity.
  - intros signum. vm_compute. discriminate.
  - simpl. tauto.
  - reflexivity.
Defined.

Lemma armed_on_main_thread pf :
  in_main_thread pf = true ->
  exists st1, armed pf = (Ok (), st1) /\ interrupt st1 = None /\
              exit_callback_called st1 = false /\ events st1 = [].
Proof.
  intros Hmain.
  destruct (install_on_main_thread pf Handler _INTERRUPT_SIGNALS initial Hmain)
    as (st1 & Harm & _).
  fold (armed pf) in Harm. exists st1. split; [exact Harm|].
  pose proof (armed_keeps pf) as H. by rewrite Harm in H.
Qed.

Lemma finally_on_main_thread pf o st :
  in_main_thread pf = true -> interrupt st = None ->
  fst (finally_clause pf o st) = o.
Proof.
  intros Hmain Hint. unfold finally_clause.
  destruct (install_on_main_thread pf SIG_DFL _INTERRUPT_SIGNALS st Hmain)
    as (st' & Hfin & _).
  rewrite Hfin. apply install_keeps in Hfin as (Hi & _). rewrite Hi, Hint.
  by destruct o.
Qed.

(** X21. When the body raises an [Exception] and the exit callback, run
    for it, raises in turn, the callback's exception is the one that
    leaves the context manager, in place of the body's; the callback was
    called once and did not complete. *)
Theorem failing_exit_callback_replaces_the_exception (pf : platform)
    (rt : runtime) (enabled : option bool) (exit_callback body : code)
    (e e' : obj) :
  in_main_thread pf = true ->
  resolve_enabled pf enabled = true ->
  fst (run_code pf rt body (snd (armed pf))) = Raised e ->
  isinstance e Exception = true ->
  fst (run_code pf rt exit_callback (log Invoked (snd (armed pf))))
  = Raised e' ->
  fst (handle_interrupts pf rt enabled exit_callback body) = Raised e' /\
  events (snd (handle_interrupts pf rt enabled exit_callback body))
  = [Invoked].
Proof.
  intros Hmain Hen Hbody Hexc Hcb.
  destruct (armed_on_main_thread pf Hmain)
    as (st1 & Harm & Hint & Hcalled & Hev).
  rewrite Harm in Hbody, Hcb. cbn [snd] in Hbody, Hcb.
  rewrite (handle_interrupts_enabled pf rt enabled exit_callback body st1
             Hen Harm).
  rewrite Hbody. unfold except_clause. rewrite Hexc, Hcalled. cbn [negb].
  rewrite run_code_eq, Hcb. cbn [fst snd]. split.
  - by apply finally_on_main_thread.
  - rewrite finally_clause_keeps. simpl. by rewrite Hev.
Qed.

Lemma failing_exit_callback_replaces_the_exception_witness :
  let body := Raises (mkObj ValueError ∅) in
  let callback := Raises (mkObj RuntimeError ∅) in
  fst (handle_interrupts posix sample_runtime None callback body)
  = Raised (mkObj RuntimeError ∅) /\
  events (snd (handle_interrupts posix sample_runtime None callback body))
  = [Invoked].
Proof.
  intros body callback.
  apply (failing_exit_callback_replaces_the_exception posix sample_runtime
           None callback body (mkObj ValueError ∅) (mkObj RuntimeError ∅));
    vm_compute; reflexivity.
Defined.

(** X22. On the main thread with interrupts enabled, the exit callback
    is called exactly when the body ends with an exception that is an
    [Exception]: not when the body returns and not for a [BaseException]
    outside [Exception]. The signal handler never schedules it, since the
    handler raises before it gets there. *)
Theorem exit_callback_runs_only_for_exceptions (pf : platform)
    (rt : runtime) (enabled : option bool) (exit_callback body : code) :
  in_main_thread pf = true ->
  resolve_enabled pf enabled = true ->
  (In Invoked (events (snd (handle_interrupts pf rt enabled exit_callback body)))
   <->
   exists e, fst (run_code pf rt body (snd (armed pf))) = Raised e /\
             isinstance e Exception = true) /\
  ~ In Scheduled
      (events (snd (handle_interrupts pf rt enabled exit_callback body))).
Proof.
  intros Hmain Hen.
  destruct (armed_on_main_thread pf Hmain)
    as (st1 & Harm & Hint & Hcalled & Hev).
  rewrite Harm. cbn [snd].
  rewrite (handle_interrupts_enabled pf rt enabled exit_callback body st1
             Hen Harm).
  rewrite finally_clause_keeps. unfold except_clause.
  destruct (fst (run_code pf rt body st1)) as [|e|signum].
  - cbn [snd]. rewrite Hev. split; [|intros []].
    split; [intros []|intros (e & He & _); discriminate He].
  - destruct (isinstance e Exception) eqn:Hexc.
    + rewrite Hcalled. cbn [negb]. rewrite run_code_eq.
      destruct (fst (run_code pf rt exit_callback (log Invoked st1)));
        cbn [snd set_called log events]; rewrite Hev; simpl;
        (split; [split; [eauto|tauto]|];
         intros H; repeat (destruct H as [H|H]; [discriminate H|]); exact H).
    + cbn [snd]. rewrite Hev. split; [|intros []].
      split; [intros []|].
      intros (e0 & He & He0). injection He as <-. congruence.
  - cbn [snd]. rewrite Hev. split; [|intros []].
    split; [intros []|intros (e & He & _); discriminate He].
Qed.

Lemma exit_callback_runs_only_for_exceptions_witness :
  let body := Raises (mkObj HikariInterrupt ∅) in
  In Invoked
    (events (snd (handle_interrupts posix sample_runtime None Returns body))).
Proof.
  intros body.
  apply (proj1 (exit_callback_runs_only_for_exceptions posix sample_runtime
                  None Returns body eq_refl eq_refl)).
  exists (mkObj HikariInterrupt ∅). split; vm_compute; reflexivity.
Defined.

(** * Properties of docs.patched_pdoc *)

Lemma replace_char_absent (old new : N) (s : pystr) :
  old <> new -> ~ In old (replace_char old new s).
Proof.
  intros Hne. induction s as [|c s IH]; simpl; [tauto|].
  intros [H|H]; [|by apply IH].
  destruct (N.eqb_spec c old) as [->|Hc]; congruence.
Qed.

Lemma replace_char_lookup (old new : N) (s : pystr) (i : nat) (c : N) :
  s !! i = Some c ->
  replace_char old new s !! i = Some (if (c =? old)%N then new else c).
Proof.
  revert i. induction s as [|a s IH]; intros [|i] H; simpl in *;
    try discriminate H.
  - by injection H as ->.
  - by apply IH.
Qed.

(** X23. [_add_to_inventory] leaves the inventory as it is exactly for
    an object whose name begins with an underscore or whose type is not
    one of module, class, function and variable; in the latter case the
    call raises ([KeyError]) instead of returning. Otherwise it appends
    one entry after those already there and returns the empty string. *)
Theorem inventory_skips_private_and_unknown (objects : list DataObjStr.t)
    (dobj : Doc.t) :
  let private := startswith (lit "_") (Doc.name dobj) in
  let role := dict_get (Doc.type dobj) type_to_role in
  (snd (_add_to_inventory objects dobj) = objects <->
   private = true \/ role = None) /\
  (fst (_add_to_inventory objects dobj) = None <->
   private = false /\ role = None) /\
  (private = false -> forall r, role = Some r ->
   exists entry,
     _add_to_inventory objects dobj = (Some (lit ""), objects ++ [entry]) /\
     DataObjStr.name entry = Doc.fullname dobj /\
     DataObjStr.role entry = r /\
     In r [lit "module"; lit "class"; lit "func"; lit "var"]).
Proof.
  intros private role. subst private role. unfold _add_to_inventory.
  destruct (startswith (lit "_") (Doc.name dobj)); cbn [fst snd].
  - split; [|split].
    + split; [by left|done].
    + split; [intros H; discriminate H|intros [H _]; discriminate H].
    + intros H; discriminate H.
  - destruct (dict_get (Doc.type dobj) type_to_role) as [r|] eqn:Hrole;
      cbn [fst snd].
    + split; [|split].
      * split.
        -- intros H. apply (f_equal (@length _)) in H.
           rewrite length_app in H. simpl in H. lia.
        -- intros [H|H]; discriminate H.
      * split; [intros H; discriminate H|intros [_ H]; discriminate H].
      * intros _ r' Hr'. apply (f_equal (default [])) in Hr'. simpl in Hr'.
        subst r'. eexists. split; [reflexivity|]. split; [reflexivity|].
        split; [reflexivity|].
        unfold type_to_role in Hrole. simpl in Hrole.
        repeat (case_bool_decide;
                [apply (f_equal (default [])) in Hrole; simpl in Hrole;
                 subst r; simpl; tauto|]).
        discriminate Hrole.
    + split; [|split].
      * split; [by right|done].
      * split; [done|reflexivity].
      * intros _ r H. discriminate H.
Qed.

Lemma inventory_skips_private_and_unknown_witness :
  let dobj := Doc.mk (lit "errors") (lit "hikari.errors") (lit "")
                (lit "hikari.errors") (lit "package") in
  _add_to_inventory [] dobj = (None, []).
Proof.
  intros dobj.
  destruct (inventory_skips_private_and_unknown [] dobj) as (Hsame & Hfail & _).
  rewrite (surjective_pairing (_add_to_inventory [] dobj)).
  assert (fst (_add_to_inventory [] dobj) = None) as ->
    by (apply Hfail; split; reflexivity).
  assert (snd (_add_to_inventory [] dobj) = []) as ->
    by (apply Hsame; right; reflexivity).
  reflexivity.
Defined.

(** X24. The URI of an inventory entry is the module name with every
    dot turned into a slash, then ".html", then "#" and the qualified
    name when there is one: the page path has the length of the module
    name and holds no dot of its own, whatever the module name. *)
Theorem inventory_uri_follows_module_path (objects : list DataObjStr.t)
    (dobj : Doc.t) (entry : DataObjStr.t) (r : option pystr) :
  _add_to_inventory objects dobj = (r, objects ++ [entry]) ->
  exists page fragment,
    DataObjStr.uri entry = page ++ lit ".html" ++ fragment /\
    length page = length (Doc.modulename dobj) /\
    ~ In 46%N page /\
    (forall i c, Doc.modulename dobj !! i = Some c ->
       page !! i = Some (if (c =? 46)%N then 47%N else c)) /\
    fragment = match Doc.qualname dobj with
               | [] => []
               | _ => lit "#" ++ Doc.qualname dobj
               end.
Proof.
  unfold _add_to_inventory.
  destruct (startswith (lit "_") (Doc.name dobj)).
  { intros H. apply (f_equal (fun p => length (snd p))) in H.
    cbn [snd] in H. rewrite length_app in H. simpl in H. lia. }
  destruct (dict_get (Doc.type dobj) type_to_role) as [role|].
  2: { intros H. apply (f_equal (fun p => length (snd p))) in H.
       cbn [snd] in H. rewrite length_app in H. simpl in H. lia. }
  intros H. apply (f_equal snd) in H. cbn [snd] in H.
  apply app_inv_head in H. apply (f_equal (hd entry)) in H. cbn [hd] in H.
  subst entry. cbn [DataObjStr.uri].
  exists (replace_char 46 47 (Doc.modulename dobj)),
    (match Doc.qualname dobj with [] => [] | _ => lit "#" ++ Doc.qualname dobj end).
  split.
  - destruct (Doc.qualname dobj); [by rewrite app_nil_r|].
    by rewrite <- app_assoc.
  - split; [apply length_map|]. split; [by apply replace_char_absent|].
    split; [|reflexivity].
    intros i c. apply replace_char_lookup.
Qed.

Lemma inventory_uri_follows_module_path_witness :
  let dobj := Doc.mk (lit "HikariError") (lit "hikari.errors")
                (lit "HikariError") (lit "hikari.errors.HikariError")
                (lit "class") in
  exists entry,
    _add_to_inventory [] dobj = (Some (lit ""), [entry]) /\
    DataObjStr.uri entry = lit "hikari/errors.html#HikariError".
Proof.
  intros dobj.
  set (entry := DataObjStr.mk (lit "hikari.errors.HikariError") (lit "py")
                  (lit "class") (lit "hikari/errors.html#HikariError")
                  (lit "1") (lit "-")).
  assert (_add_to_inventory [] dobj = (Some (lit ""), [] ++ [entry])) as Hadd
    by (vm_compute; reflexivity).
  destruct (inventory_uri_follows_module_path [] dobj entry _ Hadd)
    as (page & fragment & _ & _ & _ & _ & _).
  exists entry. split; [exact Hadd|reflexivity].
Defined.
